(** * qtitem.cc: the Qt/QML video item of qmlglsink

    A shallow embedding of [ext/qt/qtitem.cc]: the private state shared by the
    producer (streaming) thread and the render thread, the paint entry point
    [updatePaintNode], the proxy [QtGLVideoItemInterface] with its
    invalidatable back pointer, and the display-size computation
    [_calculate_par].

    GStreamer, GLib and Qt functions called by the file are not part of it.
    They are parameters of [Section QtItem]; the theorems hold whatever those
    functions compute.  [Module Gst] gives one concrete instance, used to
    evaluate the embedding on concrete inputs. *)

From Stdlib Require Import ZArith List Bool Lia QArith String.
Import ListNotations.
Local Open Scope Z_scope.

(** ** C integer types

    [gint] is a 32-bit two's-complement integer, [guint] its unsigned
    counterpart, [guint64] a 64-bit unsigned integer.  Values are [Z]; the
    conversions the compiler inserts are written out. *)

Definition G_MAXINT : Z := 2 ^ 31 - 1.
Definition G_MAXUINT64 : Z := 2 ^ 64 - 1.

Definition to_guint (x : Z) : Z := x mod 2 ^ 32.
Definition to_guint64 (x : Z) : Z := x mod 2 ^ 64.
Definition to_gint (x : Z) : Z := (x + 2 ^ 31) mod 2 ^ 32 - 2 ^ 31.

Definition is_gint (x : Z) : Prop := - 2 ^ 31 <= x <= G_MAXINT.

(** ** qreal and QRectF

    [qreal] values that matter here are finite, hence rationals.  Assigning a
    [qreal] to a [gint] truncates toward zero; C++ leaves the conversion
    undefined when the truncated value does not fit, so statements about
    converted rectangles are made for values within [gint]. *)

Record QRectF : Type := mkQRectF
  { rect_x : Q; rect_y : Q; rect_width : Q; rect_height : Q }.

Record GstVideoRectangle : Type := mkRect
  { x_ : Z; y_ : Z; w_ : Z; h_ : Z }.

Definition qreal_trunc (q : Q) : Z := Z.quot (Qnum q) (Zpos (Qden q)).

Definition gint_of_qreal (q : Q) : Z := qreal_trunc q.

Definition qreal_of_gint (z : Z) : Q := inject_Z z.

Definition QRectF_eq (a b : QRectF) : Prop :=
  (rect_x a == rect_x b)%Q /\ (rect_y a == rect_y b)%Q /\
  (rect_width a == rect_width b)%Q /\ (rect_height a == rect_height b)%Q.

(** ** GstVideoInfo: the fields read through the GST_VIDEO_INFO_* macros *)

Record GstVideoInfo : Type := mkVideoInfo
  { GST_VIDEO_INFO_WIDTH : Z;
    GST_VIDEO_INFO_HEIGHT : Z;
    GST_VIDEO_INFO_PAR_N : Z;
    GST_VIDEO_INFO_PAR_D : Z }.

Definition DEFAULT_FORCE_ASPECT_RATIO : bool := true.
Definition DEFAULT_PAR_N : Z := 0.
Definition DEFAULT_PAR_D : Z := 1.

Inductive Event : Type :=
  | EvUpdate                 (* QMetaObject::invokeMethod (qt_item, "update") *)
  | EvSleep (ms : Z)         (* std::this_thread::sleep_for *)
  | EvWarning (msg : string) (* GST_WARNING *)
  | EvError (msg : string)   (* GST_ERROR *)
  | EvCritical.              (* g_return_val_if_fail *)

(** ** A reference instance of the library functions *)

Module Gst.

(** Modelled from the spec: gst_video_calculate_display_ratio is a
    GStreamer library function, absent from the source file.  The spec:
    "Compute the display:pixel aspect ratio as a reduced rational from
    source PAR and target display PAR; fail if the ratio cannot be computed
    (degenerate input, e.g. zero dimensions)".  The ratio is
    (width * par_n * display_par_d) / (height * par_d * display_par_n). *)
Definition video_calculate_display_ratio
    (video_width video_height video_par_n video_par_d
     display_par_n display_par_d : Z) : option (Z * Z) :=
  let num := video_width * video_par_n * display_par_d in
  let den := video_height * video_par_d * display_par_n in
  if (num <=? 0) || (den <=? 0) then None
  else
    let g := Z.gcd num den in
    if (G_MAXINT <? num / g) || (G_MAXINT <? den / g) then None
    else Some (num / g, den / g).

(** Modelled from the spec: gst_util_uint64_scale_int is a GStreamer
    library function, absent from the source file.  The spec has the width
    "scaled proportionally" by the ratio: val * num / denom, rounded down,
    saturating at G_MAXUINT64. *)
Definition util_uint64_scale_int (val num denom : Z) : Z :=
  if (denom <=? 0) || (num <? 0) then G_MAXUINT64
  else Z.min (val * num / denom) G_MAXUINT64.

(** Modelled from the spec: gst_video_sink_center_rect is a GStreamer
    library function, absent from the source file.  The spec: "center the
    source rectangle (display_w x display_h) inside the bounding box
    preserving aspect ratio (standard letterbox/pillarbox centering),
    producing a sub-rectangle no larger than the bounding box in either
    dimension". *)
Definition video_sink_center_rect (src dst : GstVideoRectangle)
    (scaling : bool) : GstVideoRectangle :=
  if (w_ src <=? 0) || (h_ src <=? 0) then dst
  else if w_ dst * h_ src <? w_ src * h_ dst then
    let h := w_ dst * h_ src / w_ src in
    mkRect (x_ dst) (y_ dst + (h_ dst - h) / 2) (w_ dst) h
  else
    let w := h_ dst * w_ src / h_ src in
    mkRect (x_ dst + (w_ dst - w) / 2) (y_ dst) w (h_ dst).

(** Caps reduced to what the item asks of them: whether they are fixed and
    the video info they parse to, if any. *)
Record Caps : Type := mkCaps
  { caps_fixed : bool;
    caps_video : option GstVideoInfo }.

Definition info_eqb (a b : GstVideoInfo) : bool :=
  (GST_VIDEO_INFO_WIDTH a =? GST_VIDEO_INFO_WIDTH b)
  && (GST_VIDEO_INFO_HEIGHT a =? GST_VIDEO_INFO_HEIGHT b)
  && (GST_VIDEO_INFO_PAR_N a =? GST_VIDEO_INFO_PAR_N b)
  && (GST_VIDEO_INFO_PAR_D a =? GST_VIDEO_INFO_PAR_D b).

Definition caps_is_equal_fixed (a b : Caps) : bool :=
  Bool.eqb (caps_fixed a) (caps_fixed b)
  && match caps_video a, caps_video b with
     | Some x, Some y => info_eqb x y
     | None, None => true
     | _, _ => false
     end.

(** Handles are addresses. *)
Definition gl_context_new (d : nat) : option nat := Some (S d).
Definition gl_context_create (c other : nat) : bool := true.
Definition qt_get_gl_wrapcontext (d : option nat) (other ctx : option nat)
  : bool * option nat * option nat :=
  match d with
  | Some n => (true, Some (n + 1)%nat, Some (n + 2)%nat)
  | None => (false, other, ctx)
  end.

Definition video_caps (width height par_n par_d : Z) : Caps :=
  mkCaps true (Some (mkVideoInfo width height par_n par_d)).

End Gst.

Section QtItem.

(** Opaque handles. *)
Context {GstCaps GstBuffer GstGLContext GstGLDisplay QOpenGLContext : Type}.

(** Library functions.  [gst_video_calculate_display_ratio] returns the
    display ratio [(num, den)] or fails; [gst_util_uint64_scale_int val num
    denom] scales a [guint64]. *)
Variable gst_caps_is_fixed : GstCaps -> bool.
Variable gst_caps_is_equal_fixed : GstCaps -> GstCaps -> bool.
Variable gst_video_info_from_caps : GstCaps -> option GstVideoInfo.
Variable gst_video_calculate_display_ratio :
  Z -> Z -> Z -> Z -> Z -> Z -> option (Z * Z).
Variable gst_util_uint64_scale_int : Z -> Z -> Z -> Z.
Variable gst_video_sink_center_rect :
  GstVideoRectangle -> GstVideoRectangle -> bool -> GstVideoRectangle.
Variable gst_gl_context_new : GstGLDisplay -> option GstGLContext.
Variable gst_gl_context_create : GstGLContext -> GstGLContext -> bool.
(** [gst_qt_get_gl_wrapcontext display &other_context &context]: success
    and the new values of the two in/out pointers. *)
Variable gst_qt_get_gl_wrapcontext :
  option GstGLDisplay -> option GstGLContext -> option GstGLContext ->
  bool * option GstGLContext * option GstGLContext.
(** Pointer comparison of Qt contexts. *)
Variable QOpenGLContext_eqb : QOpenGLContext -> QOpenGLContext -> bool.

(** struct _QtGLVideoItemPrivate, without its two mutexes. *)
Record QtGLVideoItemPrivate : Type := mkPriv
  { force_aspect_ratio : bool;
    par_n : Z;
    par_d : Z;
    display_width : Z;
    display_height : Z;
    negotiated : bool;
    front_buffer : option GstBuffer;
    back_buffer : option GstBuffer;
    waiting_on_render : bool;
    caps : option GstCaps;
    v_info : GstVideoInfo;
    initted : bool;
    display : option GstGLDisplay;
    qt_context : option QOpenGLContext;
    other_context : option GstGLContext;
    context : option GstGLContext }.

Definition set_display_size (p : QtGLVideoItemPrivate) (dw dh : Z)
  : QtGLVideoItemPrivate :=
  mkPriv (force_aspect_ratio p) (par_n p) (par_d p) dw dh (negotiated p)
    (front_buffer p) (back_buffer p) (waiting_on_render p) (caps p)
    (v_info p) (initted p) (display p) (qt_context p) (other_context p)
    (context p).

(** *** _calculate_par *)

(** Lines 446-450: the source pixel aspect ratio handed to the ratio
    computation. *)
Definition source_par (info : GstVideoInfo) : Z * Z :=
  let par_n := GST_VIDEO_INFO_PAR_N info in
  let par_d := GST_VIDEO_INFO_PAR_D info in
  (if par_n =? 0 then 1 else par_n, par_d).

(** Lines 452-459: the display's pixel aspect ratio. *)
Definition display_par (p : QtGLVideoItemPrivate) : Z * Z :=
  if negb (par_n p =? 0) && negb (par_d p =? 0)
  then (par_n p, par_d p)
  else (1, 1).

(** Lines 461-463: the call of gst_video_calculate_display_ratio, whose
    parameters are [guint]. *)
Definition display_ratio (p : QtGLVideoItemPrivate) (info : GstVideoInfo)
  : option (Z * Z) :=
  let width := GST_VIDEO_INFO_WIDTH info in
  let height := GST_VIDEO_INFO_HEIGHT info in
  let '(par_n, par_d) := source_par info in
  let '(display_par_n, display_par_d) := display_par p in
  gst_video_calculate_display_ratio
    (to_guint width) (to_guint height) (to_guint par_n) (to_guint par_d)
    (to_guint display_par_n) (to_guint display_par_d).

(** [(guint) gst_util_uint64_scale_int (val, num, denom)] stored in a
    [gint] field. *)
Definition scale_to_gint (val num denom : Z) : Z :=
  to_gint (to_guint
    (gst_util_uint64_scale_int (to_guint64 val) (to_gint num) (to_gint denom))).

(** Lines 435-491.  Both [%] are taken on [guint] operands; the library
    only reports success with a positive numerator and denominator. *)
Definition _calculate_par (p : QtGLVideoItemPrivate) (info : GstVideoInfo)
  : bool * QtGLVideoItemPrivate :=
  let width := GST_VIDEO_INFO_WIDTH info in
  let height := GST_VIDEO_INFO_HEIGHT info in
  match display_ratio p info with
  | None => (false, p)
  | Some (display_ratio_num, display_ratio_den) =>
      if to_guint height mod display_ratio_den =? 0 then
        (true, set_display_size p
                 (scale_to_gint height display_ratio_num display_ratio_den)
                 height)
      else if to_guint width mod display_ratio_num =? 0 then
        (true, set_display_size p
                 width
                 (scale_to_gint width display_ratio_den display_ratio_num))
      else
        (true, set_display_size p
                 (scale_to_gint height display_ratio_num display_ratio_den)
                 height)
  end.

(** *** The scene-graph node *)

(** A QSGSimpleTextureNode with the GstQSGTexture it owns. *)
Record QSGSimpleTextureNode : Type := mkNode
  { node_rect : QRectF;
    tex_caps : option GstCaps;
    tex_buffer : option GstBuffer;
    dirty_material : bool }.

Definition new_QSGSimpleTextureNode : QSGSimpleTextureNode :=
  mkNode (mkQRectF 0 0 0 0) None None false.

Definition QRectF_of_rect (r : GstVideoRectangle) : QRectF :=
  mkQRectF (qreal_of_gint (x_ r)) (qreal_of_gint (y_ r))
           (qreal_of_gint (w_ r)) (qreal_of_gint (h_ r)).

Definition rect_of_QRectF (b : QRectF) : GstVideoRectangle :=
  mkRect (gint_of_qreal (rect_x b)) (gint_of_qreal (rect_y b))
         (gint_of_qreal (rect_width b)) (gint_of_qreal (rect_height b)).

(** Lines 229-244: the destination rectangle of the paint path.  The source
    leaves [src.x] and [src.y] unset; they stand as 0 here. *)
Definition destination_rect (force_aspect_ratio : bool)
    (display_width display_height : Z) (boundingRect : QRectF)
  : GstVideoRectangle :=
  if force_aspect_ratio then
    let src := mkRect 0 0 display_width display_height in
    let dst := rect_of_QRectF boundingRect in
    gst_video_sink_center_rect src dst true
  else
    rect_of_QRectF boundingRect.

(** *** QtGLVideoItem *)

Record QtGLVideoItem : Type := mkItem
  { priv : option QtGLVideoItemPrivate;   (* QSharedPointer, may be null *)
    m_openGlContextInitialized : bool;
    boundingRect : QRectF }.

Definition set_priv (it : QtGLVideoItem) (p : QtGLVideoItemPrivate)
  : QtGLVideoItem :=
  mkItem (Some p) (m_openGlContextInitialized it) (boundingRect it).

Definition set_waiting_on_render (p : QtGLVideoItemPrivate) (b : bool)
  : QtGLVideoItemPrivate :=
  mkPriv (force_aspect_ratio p) (par_n p) (par_d p) (display_width p)
    (display_height p) (negotiated p) (front_buffer p) (back_buffer p) b
    (caps p) (v_info p) (initted p) (display p) (qt_context p)
    (other_context p) (context p).

Definition swap_buffers (p : QtGLVideoItemPrivate) : QtGLVideoItemPrivate :=
  mkPriv (force_aspect_ratio p) (par_n p) (par_d p) (display_width p)
    (display_height p) (negotiated p) (back_buffer p) (front_buffer p)
    (waiting_on_render p) (caps p) (v_info p) (initted p) (display p)
    (qt_context p) (other_context p) (context p).

(** The body of updatePaintNode once the private state is dereferenced. *)
Definition paint (initialized : bool) (bounding : QRectF)
    (oldNode : option QSGSimpleTextureNode) (p : QtGLVideoItemPrivate)
  : option QSGSimpleTextureNode * QtGLVideoItemPrivate :=
  if negb initialized then (oldNode, p)
  else
    match caps p with
    | None => (None, set_waiting_on_render p false)
    | Some c =>
        let p1 := swap_buffers p in
        let texNode :=
          match oldNode with
          | Some n => n
          | None => new_QSGSimpleTextureNode
          end in
        let result :=
          destination_rect (force_aspect_ratio p1) (display_width p1)
            (display_height p1) bounding in
        let texNode :=
          mkNode (node_rect texNode) (Some c) (front_buffer p1) true in
        let texNode :=
          mkNode (QRectF_of_rect result) (tex_caps texNode)
            (tex_buffer texNode) (dirty_material texNode) in
        (Some texNode, set_waiting_on_render p1 false)
    end.

(** QtGLVideoItem::updatePaintNode.  [None] stands for the dereference of a
    null [priv]. *)
Definition updatePaintNode (oldNode : option QSGSimpleTextureNode)
    (it : QtGLVideoItem)
  : option (option QSGSimpleTextureNode * QtGLVideoItem) :=
  if negb (m_openGlContextInitialized it) then Some (oldNode, it)
  else
    match priv it with
    | None => None
    | Some p =>
        let '(n, p') := paint true (boundingRect it) oldNode p in
        Some (n, set_priv it p')
    end.

Definition _reset (p : QtGLVideoItemPrivate) : QtGLVideoItemPrivate :=
  mkPriv (force_aspect_ratio p) (par_n p) (par_d p) (display_width p)
    (display_height p) false None None false None (v_info p) false
    (display p) (qt_context p) (other_context p) (context p).

(** *** The proxy and the world it lives in

    [qt_item] is the proxy's raw pointer to the item: null or pointing at
    the one item of the world.  [paintNode] is the node Qt keeps for the
    item between paint cycles, [now] the steady clock in milliseconds and
    [log] the trace of calls that leave the file, newest first. *)

Inductive ItemPtr : Type := nullptr | item_ptr.

Record World : Type := mkWorld
  { qt_item : ItemPtr;
    item : QtGLVideoItem;
    paintNode : option QSGSimpleTextureNode;
    now : Z;
    log : list Event }.

Definition set_item (w : World) (it : QtGLVideoItem) : World :=
  mkWorld (qt_item w) it (paintNode w) (now w) (log w).

Definition set_world_priv (w : World) (p : QtGLVideoItemPrivate) : World :=
  set_item w (set_priv (item w) p).

Definition emit (e : Event) (w : World) : World :=
  mkWorld (qt_item w) (item w) (paintNode w) (now w) (e :: log w).

(** QtGLVideoItem::QtGLVideoItem: value-initialised private state, then the
    defaults. *)
Definition new_private (d : option GstGLDisplay) : QtGLVideoItemPrivate :=
  mkPriv DEFAULT_FORCE_ASPECT_RATIO DEFAULT_PAR_N DEFAULT_PAR_D 0 0 false
    None None false None (mkVideoInfo 0 0 0 0) false d None None None.

Definition new_world (d : option GstGLDisplay) (bounding : QRectF) (t : Z)
  : World :=
  mkWorld item_ptr (mkItem (Some (new_private d)) false bounding) None t [].

Definition invalidateRef (w : World) : World :=
  match qt_item w with
  | nullptr => w
  | item_ptr =>
      let it :=
        match priv (item w) with
        | Some p => set_priv (item w) (_reset p)
        | None => item w
        end in
      mkWorld nullptr it (paintNode w) (now w) (log w)
  end.

(** One paint cycle of the render thread on the shared state. *)
Definition render_cycle (w : World) : World :=
  match priv (item w) with
  | None => w
  | Some p =>
      let '(n, p') :=
        paint (m_openGlContextInitialized (item w)) (boundingRect (item w))
          (paintNode w) p in
      mkWorld (qt_item w) (set_priv (item w) p') n (now w) (log w)
  end.

(** What the other threads do while a setBuffer call is suspended.
    [update_served]: the item's thread gets to run the queued "update" call
    (with Qt::BlockingQueuedConnection the caller is blocked until it has).
    At the [i]-th suspension the render thread runs a paint cycle when
    [render_runs i], and the [i]-th sleep lasts [1 + oversleep i] ms. *)
Record Env : Type := mkEnv
  { update_served : bool;
    render_runs : nat -> bool;
    oversleep : nat -> nat }.

Definition suspend (env : Env) (i : nat) (w : World) : World :=
  if render_runs env i then render_cycle w else w.

Definition sleep_for_1ms (env : Env) (i : nat) (w : World) : World :=
  let d := 1 + Z.of_nat (oversleep env i) in
  let w := suspend env i w in
  mkWorld (qt_item w) (item w) (paintNode w) (now w + d) (EvSleep d :: log w).

Definition waiting (w : World) : bool :=
  match priv (item w) with
  | Some p => waiting_on_render p
  | None => false
  end.

(** Lines 312-318.  [None] when [fuel] iterations were not enough.  The
    clock of the model moves in sleeps only, by whole milliseconds; the
    code's clock also moves between them, so the code never sleeps more
    often than the model does: what is proved of the wait is an upper
    bound. *)
Fixpoint wait_for_render (env : Env) (fuel i : nat) (until : Z) (w : World)
  : option World :=
  if negb (waiting w) then Some w
  else
    match fuel with
    | O => None
    | S fuel =>
        let w := sleep_for_1ms env i w in
        if waiting w && (until <? now w) then
          Some (emit (EvWarning "Timed out waiting for rendering to finish") w)
        else wait_for_render env fuel (S i) until w
    end.

Definition set_back_buffer (p : QtGLVideoItemPrivate)
    (buffer : option GstBuffer) : QtGLVideoItemPrivate :=
  mkPriv (force_aspect_ratio p) (par_n p) (par_d p) (display_width p)
    (display_height p) (negotiated p) (front_buffer p) buffer
    (waiting_on_render p) (caps p) (v_info p) (initted p) (display p)
    (qt_context p) (other_context p) (context p).

(** QtGLVideoItemInterface::setBuffer.  The blocking "update" call is
    suspension 0, the sleeps are suspensions 1, 2, ...  [None] is a call that
    has not returned: blocked in the "update" call for good, or still
    waiting after [fuel] sleeps. *)
Definition setBuffer (env : Env) (fuel : nat) (buffer : option GstBuffer)
    (w : World) : option World :=
  match qt_item w with
  | nullptr => Some w
  | item_ptr =>
      match priv (item w) with
      | None =>
          Some (emit (EvWarning "QtGLVideoItemInterface destroyed, dropping") w)
      | Some p =>
          if negb (negotiated p) then
            Some (emit (EvWarning
              "Got buffer on unnegotiated QtGLVideoItem. Dropping") w)
          else
            let p := set_back_buffer p buffer in
            let p := set_waiting_on_render p true in
            let w := set_world_priv w p in
            let w := emit EvUpdate w in
            if negb (update_served env) then None
            else
              let w := suspend env 0 w in
              let until := now w + 100 in
              wait_for_render env fuel 1 until w
      end
  end.

Definition set_caps (p : QtGLVideoItemPrivate) (c : option GstCaps)
  : QtGLVideoItemPrivate :=
  mkPriv (force_aspect_ratio p) (par_n p) (par_d p) (display_width p)
    (display_height p) (negotiated p) (front_buffer p) (back_buffer p)
    (waiting_on_render p) c (v_info p) (initted p) (display p)
    (qt_context p) (other_context p) (context p).

Definition set_negotiated_info (p : QtGLVideoItemPrivate)
    (info : GstVideoInfo) : QtGLVideoItemPrivate :=
  mkPriv (force_aspect_ratio p) (par_n p) (par_d p) (display_width p)
    (display_height p) true (front_buffer p) (back_buffer p)
    (waiting_on_render p) (caps p) info (initted p) (display p)
    (qt_context p) (other_context p) (context p).

Definition same_caps (p : QtGLVideoItemPrivate) (c : GstCaps) : bool :=
  match caps p with
  | Some old => gst_caps_is_equal_fixed old c
  | None => false
  end.

(** QtGLVideoItemInterface::setCaps.  A null [caps] pointer is [None]. *)
Definition setCaps (caps : option GstCaps) (w : World) : bool * World :=
  match caps with
  | None => (false, emit EvCritical w)
  | Some c =>
      if negb (gst_caps_is_fixed c) then (false, emit EvCritical w)
      else
        match qt_item w with
        | nullptr => (false, w)
        | item_ptr =>
            match priv (item w) with
            | None => (false, w)
            | Some p =>
                if same_caps p c then (true, w)
                else
                  match gst_video_info_from_caps c with
                  | None => (false, w)
                  | Some v_info =>
                      let p := _reset p in
                      let p := set_caps p (Some c) in
                      let '(ok, p) := _calculate_par p v_info in
                      if negb ok then (false, set_world_priv w p)
                      else
                        (true, set_world_priv w (set_negotiated_info p v_info))
                  end
            end
        end
  end.

Definition set_context (p : QtGLVideoItemPrivate) (c : option GstGLContext)
  : QtGLVideoItemPrivate :=
  mkPriv (force_aspect_ratio p) (par_n p) (par_d p) (display_width p)
    (display_height p) (negotiated p) (front_buffer p) (back_buffer p)
    (waiting_on_render p) (caps p) (v_info p) (initted p) (display p)
    (qt_context p) (other_context p) c.

Definition is_some {A : Type} (o : option A) : bool :=
  match o with Some _ => true | None => false end.

(** QtGLVideoItemInterface::initWinSys *)
Definition initWinSys (w : World) : bool * World :=
  match qt_item w with
  | nullptr => (false, w)
  | item_ptr =>
      match priv (item w) with
      | None => (false, w)
      | Some p =>
          if is_some (display p) && is_some (qt_context p)
             && is_some (other_context p) && is_some (context p)
          then (true, w)
          else
            match display p with
            | None =>
                (false,
                 emit (EvError "failed to retrieve display connection") w)
            | Some d =>
                match other_context p with
                | None =>
                    (false,
                     emit (EvError "failed to retrieve wrapped context") w)
                | Some other =>
                    match gst_gl_context_new d with
                    | None => (false, set_world_priv w (set_context p None))
                    | Some c =>
                        let w := set_world_priv w (set_context p (Some c)) in
                        if gst_gl_context_create c other then (true, w)
                        else (false, emit (EvError "error->message") w)
                    end
                end
            end
      end
  end.

Definition getQtContext (w : World) : option GstGLContext :=
  match qt_item w with
  | nullptr => None
  | item_ptr =>
      match priv (item w) with
      | None => None
      | Some p => other_context p
      end
  end.

Definition getContext (w : World) : option GstGLContext :=
  match qt_item w with
  | nullptr => None
  | item_ptr =>
      match priv (item w) with
      | None => None
      | Some p => context p
      end
  end.

Definition getDisplay (w : World) : option GstGLDisplay :=
  match qt_item w with
  | nullptr => None
  | item_ptr =>
      match priv (item w) with
      | None => None
      | Some p => display p
      end
  end.

(** The item's own accessors dereference [priv] unchecked: [None] is the
    null dereference. *)
Definition set_par (p : QtGLVideoItemPrivate) (num den : Z)
  : QtGLVideoItemPrivate :=
  mkPriv (force_aspect_ratio p) num den (display_width p)
    (display_height p) (negotiated p) (front_buffer p) (back_buffer p)
    (waiting_on_render p) (caps p) (v_info p) (initted p) (display p)
    (qt_context p) (other_context p) (context p).

Definition set_force_aspect_ratio (p : QtGLVideoItemPrivate) (b : bool)
  : QtGLVideoItemPrivate :=
  mkPriv b (par_n p) (par_d p) (display_width p)
    (display_height p) (negotiated p) (front_buffer p) (back_buffer p)
    (waiting_on_render p) (caps p) (v_info p) (initted p) (display p)
    (qt_context p) (other_context p) (context p).

Definition QtGLVideoItem_setDAR (num den : Z) (it : QtGLVideoItem)
  : option QtGLVideoItem :=
  option_map (fun p => set_priv it (set_par p num den)) (priv it).

Definition QtGLVideoItem_getDAR (it : QtGLVideoItem) : option (Z * Z) :=
  option_map (fun p => (par_n p, par_d p)) (priv it).

Definition QtGLVideoItem_setForceAspectRatio (b : bool) (it : QtGLVideoItem)
  : option QtGLVideoItem :=
  option_map (fun p => set_priv it (set_force_aspect_ratio p b)) (priv it).

Definition QtGLVideoItem_getForceAspectRatio (it : QtGLVideoItem)
  : option bool :=
  option_map force_aspect_ratio (priv it).

(** The proxy's accessors.  The outer [option] is definedness; getDAR
    yields the values written through its out pointers, if any. *)
Definition setDAR (num den : Z) (w : World) : option World :=
  match qt_item w with
  | nullptr => Some w
  | item_ptr => option_map (set_item w) (QtGLVideoItem_setDAR num den (item w))
  end.

Definition getDAR (w : World) : option (option (Z * Z)) :=
  match qt_item w with
  | nullptr => Some None
  | item_ptr => option_map Some (QtGLVideoItem_getDAR (item w))
  end.

Definition setForceAspectRatio (b : bool) (w : World) : option World :=
  match qt_item w with
  | nullptr => Some w
  | item_ptr =>
      option_map (set_item w) (QtGLVideoItem_setForceAspectRatio b (item w))
  end.

Definition getForceAspectRatio (w : World) : option bool :=
  match qt_item w with
  | nullptr => Some false
  | item_ptr => QtGLVideoItem_getForceAspectRatio (item w)
  end.

(** *** Render-side entry points *)

Definition set_qt_context (p : QtGLVideoItemPrivate)
    (c : option QOpenGLContext) : QtGLVideoItemPrivate :=
  mkPriv (force_aspect_ratio p) (par_n p) (par_d p) (display_width p)
    (display_height p) (negotiated p) (front_buffer p) (back_buffer p)
    (waiting_on_render p) (caps p) (v_info p) (initted p) (display p)
    c (other_context p) (context p).

Definition set_gl_contexts (p : QtGLVideoItemPrivate)
    (other ctx : option GstGLContext) : QtGLVideoItemPrivate :=
  mkPriv (force_aspect_ratio p) (par_n p) (par_d p) (display_width p)
    (display_height p) (negotiated p) (front_buffer p) (back_buffer p)
    (waiting_on_render p) (caps p) (v_info p) (initted p) (display p)
    (qt_context p) other ctx.

Definition same_qt_context (a b : option QOpenGLContext) : bool :=
  match a, b with
  | None, None => true
  | Some x, Some y => QOpenGLContext_eqb x y
  | _, _ => false
  end.

(** QtGLVideoItem::onSceneGraphInitialized, [win_ctx] being
    [window()->openglContext()].  [None] is the failed assertion or the null
    dereference. *)
Definition onSceneGraphInitialized (win_ctx : option QOpenGLContext)
    (it : QtGLVideoItem) : option QtGLVideoItem :=
  match priv it with
  | None => None
  | Some p =>
      if same_qt_context (qt_context p) win_ctx then Some it
      else
        match win_ctx with
        | None => None
        | Some _ =>
            let p := set_qt_context p win_ctx in
            let '(ok, other, ctx) :=
              gst_qt_get_gl_wrapcontext (display p) (other_context p)
                (context p) in
            Some (mkItem (Some (set_gl_contexts p other ctx)) ok
                    (boundingRect it))
        end
  end.

(** QtGLVideoItem::handleWindowChanged with a null window. *)
Definition handleWindowChanged_null (it : QtGLVideoItem)
  : option QtGLVideoItem :=
  option_map (fun p => set_priv it (set_qt_context p None)) (priv it).

(** *** Calls and runs *)

Inductive Op : Type :=
  | OpSetBuffer (env : Env) (fuel : nat) (buffer : option GstBuffer)
  | OpSetCaps (caps : option GstCaps)
  | OpInitWinSys
  | OpGetQtContext
  | OpGetContext
  | OpGetDisplay
  | OpSetDAR (num den : Z)
  | OpGetDAR
  | OpSetForceAspectRatio (b : bool)
  | OpGetForceAspectRatio
  | OpInvalidateRef
  | OpUpdatePaintNode
  | OpSceneGraphInitialized (win_ctx : option QOpenGLContext)
  | OpWindowChangedNull
  | OpGeometryChanged (bounding : QRectF).

Inductive Ret : Type :=
  | RetVoid
  | RetBool (b : bool)
  | RetContext (c : option GstGLContext)
  | RetDisplay (d : option GstGLDisplay)
  | RetDAR (r : option (Z * Z)).

(** The calls made through the proxy. *)
Definition is_proxy_op (o : Op) : bool :=
  match o with
  | OpSetBuffer _ _ _ | OpSetCaps _ | OpInitWinSys | OpGetQtContext
  | OpGetContext | OpGetDisplay | OpSetDAR _ _ | OpGetDAR
  | OpSetForceAspectRatio _ | OpGetForceAspectRatio | OpInvalidateRef => true
  | _ => false
  end.

Definition run_op (o : Op) (w : World) : option (Ret * World) :=
  match o with
  | OpSetBuffer env fuel buffer =>
      option_map (fun w => (RetVoid, w)) (setBuffer env fuel buffer w)
  | OpSetCaps c => let '(b, w) := setCaps c w in Some (RetBool b, w)
  | OpInitWinSys => let '(b, w) := initWinSys w in Some (RetBool b, w)
  | OpGetQtContext => Some (RetContext (getQtContext w), w)
  | OpGetContext => Some (RetContext (getContext w), w)
  | OpGetDisplay => Some (RetDisplay (getDisplay w), w)
  | OpSetDAR n d => option_map (fun w => (RetVoid, w)) (setDAR n d w)
  | OpGetDAR => option_map (fun r => (RetDAR r, w)) (getDAR w)
  | OpSetForceAspectRatio b =>
      option_map (fun w => (RetVoid, w)) (setForceAspectRatio b w)
  | OpGetForceAspectRatio =>
      option_map (fun b => (RetBool b, w)) (getForceAspectRatio w)
  | OpInvalidateRef => Some (RetVoid, invalidateRef w)
  | OpUpdatePaintNode =>
      option_map
        (fun r => (RetVoid,
                   mkWorld (qt_item w) (snd r) (fst r) (now w) (log w)))
        (updatePaintNode (paintNode w) (item w))
  | OpSceneGraphInitialized c =>
      option_map (fun it => (RetVoid, set_item w it))
        (onSceneGraphInitialized c (item w))
  | OpWindowChangedNull =>
      option_map (fun it => (RetVoid, set_item w it))
        (handleWindowChanged_null (item w))
  | OpGeometryChanged b =>
      Some (RetVoid,
            set_item w
              (mkItem (priv (item w)) (m_openGlContextInitialized (item w)) b))
  end.

(** What each proxy call returns when it can do nothing: FALSE, NULL, or
    nothing at all. *)
Definition failure_value (o : Op) : Ret :=
  match o with
  | OpSetCaps _ | OpInitWinSys | OpGetForceAspectRatio => RetBool false
  | OpGetQtContext | OpGetContext => RetContext None
  | OpGetDisplay => RetDisplay None
  | OpGetDAR => RetDAR None
  | _ => RetVoid
  end.

(** [run ops w]: the values returned by the calls [ops] made in turn from
    [w], and the world they leave; [None] when a call does not return. *)
Fixpoint run (ops : list Op) (w : World) : option (list Ret * World) :=
  match ops with
  | [] => Some ([], w)
  | o :: ops =>
      match run_op o w with
      | None => None
      | Some (r, w) =>
          option_map (fun '(rs, w) => (r :: rs, w)) (run ops w)
      end
  end.

(** Is this the result of a setCaps call that returned TRUE? *)
Definition setCaps_succeeded (o : Op) (r : Ret) : bool :=
  match o, r with
  | OpSetCaps _, RetBool true => true
  | _, _ => false
  end.

Fixpoint any_setCaps_succeeded (ops : list Op) (rs : list Ret) : bool :=
  match ops, rs with
  | o :: ops, r :: rs => setCaps_succeeded o r || any_setCaps_succeeded ops rs
  | _, _ => false
  end.

(** Observations on the log. *)
Definition is_update (e : Event) : bool :=
  match e with EvUpdate => true | _ => false end.

Definition is_sleep (e : Event) : bool :=
  match e with EvSleep _ => true | _ => false end.

Definition update_requests (l : list Event) : nat :=
  List.length (filter is_update l).

Definition sleeps (l : list Event) : nat :=
  List.length (filter is_sleep l).

(** The longest oversleep among suspensions [0 .. n]. *)
Fixpoint max_oversleep (env : Env) (n : nat) : nat :=
  match n with
  | O => oversleep env O
  | S m => Nat.max (oversleep env (S m)) (max_oversleep env m)
  end.

(** ** Properties of the display-size computation *)

Lemma set_display_size_same (p : QtGLVideoItemPrivate) :
  set_display_size p (display_width p) (display_height p) = p.
Proof. destruct p; reflexivity. Qed.

Lemma display_ratio_spec (p : QtGLVideoItemPrivate) (info : GstVideoInfo) :
  display_ratio p info =
  gst_video_calculate_display_ratio
    (to_guint (GST_VIDEO_INFO_WIDTH info))
    (to_guint (GST_VIDEO_INFO_HEIGHT info))
    (to_guint (fst (source_par info))) (to_guint (snd (source_par info)))
    (to_guint (fst (display_par p))) (to_guint (snd (display_par p))).
Proof.
  unfold display_ratio.
  destruct (source_par info), (display_par p); reflexivity.
Qed.

(** The ratio only looks at the override, not at the rest of the state. *)
Lemma display_ratio_ext (p q : QtGLVideoItemPrivate) (info : GstVideoInfo) :
  display_par p = display_par q -> display_ratio p info = display_ratio q info.
Proof. intros E. rewrite !display_ratio_spec, E. reflexivity. Qed.

Lemma calculate_par_fails_iff (p : QtGLVideoItemPrivate) (info : GstVideoInfo) :
  fst (_calculate_par p info) = false <-> display_ratio p info = None.
Proof.
  unfold _calculate_par.
  destruct (display_ratio p info) as [[n d]|]; [|tauto].
  split; [|discriminate].
  repeat match goal with |- context [if ?c then _ else _] => destruct c end;
    discriminate.
Qed.

Lemma calculate_par_failure_keeps (p : QtGLVideoItemPrivate)
    (info : GstVideoInfo) :
  display_ratio p info = None -> _calculate_par p info = (false, p).
Proof. intros E. unfold _calculate_par. rewrite E. reflexivity. Qed.

(** Once the display ratio [num/den] is known the computation succeeds and
    picks one of three branches, in terms of the casts around the library's
    scaling; nothing but the display size changes. *)
Lemma calculate_par_branches
    (p : QtGLVideoItemPrivate) (info : GstVideoInfo) (num den : Z) :
  display_ratio p info = Some (num, den) ->
  let width := GST_VIDEO_INFO_WIDTH info in
  let height := GST_VIDEO_INFO_HEIGHT info in
  exists p',
    _calculate_par p info = (true, p')
    /\ (if to_guint height mod den =? 0 then
          display_height p' = height
          /\ display_width p' = scale_to_gint height num den
        else if to_guint width mod num =? 0 then
          display_width p' = width
          /\ display_height p' = scale_to_gint width den num
        else
          display_height p' = height
          /\ display_width p' = scale_to_gint height num den)
    /\ set_display_size p' (display_width p) (display_height p) = p.
Proof.
  intros E width height. unfold _calculate_par. rewrite E.
  fold width height.
  destruct (to_guint height mod den =? 0);
    [|destruct (to_guint width mod num =? 0)];
    eexists; (split; [reflexivity|]); (split; [split; reflexivity|]);
    destruct p; reflexivity.
Qed.

(** The result of [_calculate_par] with the override put back. *)
Definition with_override_of (p : QtGLVideoItemPrivate)
    (r : bool * QtGLVideoItemPrivate) : bool * QtGLVideoItemPrivate :=
  (fst r, set_par (snd r) (par_n p) (par_d p)).

Lemma calculate_par_override_ext (p q : QtGLVideoItemPrivate)
    (info : GstVideoInfo) :
  display_par p = display_par q ->
  set_par q (par_n p) (par_d p) = p ->
  _calculate_par p info = with_override_of p (_calculate_par q info).
Proof.
  intros E R. unfold _calculate_par, with_override_of.
  rewrite (display_ratio_ext p q info E).
  destruct (display_ratio q info) as [[n d]|]; cbn [fst snd].
  - repeat match goal with |- context [if ?c then _ else _] => destruct c end;
      cbn [fst snd]; f_equal; rewrite <- R at 1; destruct q; reflexivity.
  - now rewrite R.
Qed.

(** C4, as the code has it: the display pixel aspect ratio handed to the
    ratio computation is the override when both of its components are
    non-zero and 1/1 as soon as one of them is zero; in that case the whole
    computation is the one for an override of 1/1. *)
Theorem display_par_policy (p : QtGLVideoItemPrivate) (info : GstVideoInfo) :
  (if (par_n p =? 0) || (par_d p =? 0) then
     display_par p = (1, 1)
     /\ _calculate_par p info
        = with_override_of p (_calculate_par (set_par p 1 1) info)
   else display_par p = (par_n p, par_d p))
  /\ display_ratio p info =
     gst_video_calculate_display_ratio
       (to_guint (GST_VIDEO_INFO_WIDTH info))
       (to_guint (GST_VIDEO_INFO_HEIGHT info))
       (to_guint (fst (source_par info))) (to_guint (snd (source_par info)))
       (to_guint (fst (display_par p))) (to_guint (snd (display_par p))).
Proof.
  split; [|apply display_ratio_spec].
  assert (D : display_par p =
              if (par_n p =? 0) || (par_d p =? 0) then (1, 1)
              else (par_n p, par_d p)).
  { unfold display_par.
    destruct (par_n p =? 0), (par_d p =? 0); reflexivity. }
  destruct ((par_n p =? 0) || (par_d p =? 0)); [|exact D].
  split; [exact D|].
  apply calculate_par_override_ext.
  - rewrite D. reflexivity.
  - destruct p; reflexivity.
Qed.

(** A source numerator of 0 and a source numerator of 1 give the same
    computation, success or failure. *)
Lemma calculate_par_zero_par_n_same
    (p : QtGLVideoItemPrivate) (width height par_d : Z) :
  _calculate_par p (mkVideoInfo width height 0 par_d)
  = _calculate_par p (mkVideoInfo width height 1 par_d).
Proof. unfold _calculate_par. rewrite !display_ratio_spec. reflexivity. Qed.

(** C10: a source pixel aspect ratio with numerator 0 is read as
    numerator 1 and does not make the computation fail: whenever the
    library gives a display ratio for numerator 1, the ratio computation
    for numerator 0 is handed 1 and gets that ratio, _calculate_par
    returns TRUE, and its result is the one for numerator 1. *)
Theorem calculate_par_zero_par_n
    (p : QtGLVideoItemPrivate) (width height par_d num den : Z) :
  gst_video_calculate_display_ratio
    (to_guint width) (to_guint height) (to_guint 1) (to_guint par_d)
    (to_guint (fst (display_par p))) (to_guint (snd (display_par p)))
  = Some (num, den) ->
  source_par (mkVideoInfo width height 0 par_d) = (1, par_d)
  /\ display_ratio p (mkVideoInfo width height 0 par_d) = Some (num, den)
  /\ fst (_calculate_par p (mkVideoInfo width height 0 par_d)) = true
  /\ _calculate_par p (mkVideoInfo width height 0 par_d)
     = _calculate_par p (mkVideoInfo width height 1 par_d).
Proof.
  intros R.
  assert (D : display_ratio p (mkVideoInfo width height 0 par_d)
              = Some (num, den)).
  { rewrite display_ratio_spec. exact R. }
  split; [reflexivity|]. split; [exact D|]. split.
  - destruct (fst (_calculate_par p (mkVideoInfo width height 0 par_d)))
      eqn:F; [reflexivity|].
    apply calculate_par_fails_iff in F. congruence.
  - apply calculate_par_zero_par_n_same.
Qed.

(** ** Properties of the paint path *)

Lemma updatePaintNode_uninitialized
    (oldNode : option QSGSimpleTextureNode) (it : QtGLVideoItem) :
  m_openGlContextInitialized it = false ->
  updatePaintNode oldNode it = Some (oldNode, it).
Proof. intros E. unfold updatePaintNode. rewrite E. reflexivity. Qed.

(** C2, as the code has it: with no caps stored, updatePaintNode on an
    initialised GL context clears waiting_on_render, leaves the rest of the
    state alone and returns NULL whatever node it was given; before the
    context is initialised it returns the node it was given and touches
    nothing. *)
Theorem updatePaintNode_no_caps
    (oldNode : option QSGSimpleTextureNode) (it : QtGLVideoItem)
    (p : QtGLVideoItemPrivate) :
  priv it = Some p ->
  caps p = None ->
  updatePaintNode oldNode it
  = Some (if m_openGlContextInitialized it
          then (None, set_priv it (set_waiting_on_render p false))
          else (oldNode, it)).
Proof.
  intros P C. unfold updatePaintNode, paint.
  destruct (m_openGlContextInitialized it); cbn [negb]; [|reflexivity].
  rewrite P, C. reflexivity.
Qed.

Lemma qreal_trunc_inject_Z (z : Z) : qreal_trunc (inject_Z z) = z.
Proof. unfold qreal_trunc, inject_Z; cbn. apply Z.quot_1_r. Qed.

Lemma rect_roundtrip (r : GstVideoRectangle) :
  rect_of_QRectF (QRectF_of_rect r) = r.
Proof.
  destruct r; unfold rect_of_QRectF, QRectF_of_rect, gint_of_qreal,
    qreal_of_gint; cbn [rect_x rect_y rect_width rect_height x_ y_ w_ h_].
  rewrite !qreal_trunc_inject_Z. reflexivity.
Qed.

(** Without force-aspect-ratio the node rectangle is the bounding rectangle
    after its passage through the integer rectangle. *)
Lemma paint_rect_truncates
    (oldNode : option QSGSimpleTextureNode) (p : QtGLVideoItemPrivate)
    (c : GstCaps) (b : QRectF) :
  caps p = Some c ->
  force_aspect_ratio p = false ->
  option_map node_rect (fst (paint true b oldNode p))
  = Some (QRectF_of_rect (rect_of_QRectF b)).
Proof.
  intros C F. unfold paint. cbn [negb]. rewrite C.
  cbn [fst option_map node_rect swap_buffers force_aspect_ratio].
  rewrite F. reflexivity.
Qed.

(** C5, as the code has it: without force-aspect-ratio the destination
    rectangle is the bounding rectangle with each coordinate truncated to an
    integer, the node is given that rectangle, and it is the bounding
    rectangle itself when its four coordinates are integers (within gint). *)
Theorem paint_rect_without_force_aspect
    (oldNode : option QSGSimpleTextureNode) (p : QtGLVideoItemPrivate)
    (c : GstCaps) (b : QRectF) :
  caps p = Some c ->
  force_aspect_ratio p = false ->
  let truncated :=
    mkRect (qreal_trunc (rect_x b)) (qreal_trunc (rect_y b))
           (qreal_trunc (rect_width b)) (qreal_trunc (rect_height b)) in
  destination_rect false (display_width p) (display_height p) b = truncated
  /\ option_map node_rect (fst (paint true b oldNode p))
     = Some (QRectF_of_rect truncated)
  /\ (forall x y w h : Z,
        is_gint x -> is_gint y -> is_gint w -> is_gint h ->
        b = mkQRectF (inject_Z x) (inject_Z y) (inject_Z w) (inject_Z h) ->
        QRectF_of_rect truncated = b).
Proof.
  intros C F truncated. split; [reflexivity|]. split.
  - apply (paint_rect_truncates oldNode p c b C F).
  - intros x y w h _ _ _ _ ->. subst truncated.
    cbn [rect_x rect_y rect_width rect_height].
    rewrite !qreal_trunc_inject_Z. reflexivity.
Qed.

(** ** Properties of setCaps *)

Lemma reset_display_par (p : QtGLVideoItemPrivate) (c : option GstCaps) :
  display_par (set_caps (_reset p) c) = display_par p.
Proof. reflexivity. Qed.

(** Caps that do not parse never touch the item. *)
Lemma setCaps_unparseable (c : GstCaps) (w : World) :
  gst_video_info_from_caps c = None ->
  item (snd (setCaps (Some c) w)) = item w.
Proof.
  intros V. unfold setCaps. rewrite V.
  destruct (gst_caps_is_fixed c); [|reflexivity]. cbn [negb].
  destruct (qt_item w); [reflexivity|].
  destruct (priv (item w)) as [p|]; [|reflexivity].
  destruct (same_caps p c); reflexivity.
Qed.

(** C1, as the code has it.  A setCaps that gets as far as the display-ratio
    computation and fails there returns FALSE with the reset done and the
    new caps stored: both frame slots are empty, negotiated, initted and
    waiting_on_render are false, the caps are the new ones and the display
    size is the old one.  Every other failed setCaps (null or non-fixed
    caps, null link, no private state, caps that do not parse) leaves the
    item as it was: a failure that changes the item is a ratio failure, and
    its outcome is the state just described. *)
Theorem setCaps_failure :
  (forall (cc : GstCaps) (w : World) (p : QtGLVideoItemPrivate)
          (v_info : GstVideoInfo),
      gst_caps_is_fixed cc = true ->
      qt_item w = item_ptr ->
      priv (item w) = Some p ->
      same_caps p cc = false ->
      gst_video_info_from_caps cc = Some v_info ->
      display_ratio p v_info = None ->
      let p' := set_caps (_reset p) (Some cc) in
      setCaps (Some cc) w = (false, set_world_priv w p')
      /\ front_buffer p' = None /\ back_buffer p' = None
      /\ negotiated p' = false /\ initted p' = false
      /\ waiting_on_render p' = false
      /\ caps p' = Some cc
      /\ display_width p' = display_width p
      /\ display_height p' = display_height p)
  /\ (forall (c : option GstCaps) (w w' : World),
        setCaps c w = (false, w') ->
        item w' = item w
        \/ exists cc p v_info,
             c = Some cc
             /\ gst_caps_is_fixed cc = true
             /\ qt_item w = item_ptr
             /\ priv (item w) = Some p
             /\ same_caps p cc = false
             /\ gst_video_info_from_caps cc = Some v_info
             /\ display_ratio p v_info = None
             /\ w' = set_world_priv w (set_caps (_reset p) (Some cc))).
Proof.
  split.
  - intros cc w p vi F Q P S V D p'.
    assert (D' : display_ratio p' vi = None).
    { rewrite (display_ratio_ext p' p vi (reset_display_par p (Some cc))).
      exact D. }
    split; [|repeat split].
    unfold setCaps. rewrite F, Q, P, S, V. cbn [negb].
    fold p'. rewrite (calculate_par_failure_keeps p' vi D'). reflexivity.
  - intros c w w' H. unfold setCaps in H.
    destruct c as [cc|]; [|inversion H; now left].
    destruct (gst_caps_is_fixed cc) eqn:F; cbn [negb] in H;
      [|inversion H; now left].
    destruct (qt_item w) eqn:Q; [inversion H; now left|].
    destruct (priv (item w)) as [p|] eqn:P; [|inversion H; now left].
    destruct (same_caps p cc) eqn:S; [discriminate|].
    destruct (gst_video_info_from_caps cc) as [vi|] eqn:V;
      [|inversion H; now left].
    destruct (_calculate_par (set_caps (_reset p) (Some cc)) vi)
      as [ok q] eqn:K.
    destruct ok; cbn [negb] in H; [discriminate|].
    assert (D : display_ratio (set_caps (_reset p) (Some cc)) vi = None).
    { apply calculate_par_fails_iff. rewrite K. reflexivity. }
    rewrite (calculate_par_failure_keeps _ _ D) in K.
    inversion K; subst q. inversion H; subst w'.
    right. exists cc, p, vi.
    rewrite (display_ratio_ext _ p vi (reset_display_par p (Some cc))) in D.
    repeat split; try reflexivity; assumption.
Qed.

(** C6: setCaps with caps equal to the stored ones returns TRUE and leaves
    the world as it is: frame slots, waiting_on_render, everything. *)
Theorem setCaps_same_caps_noop
    (w : World) (p : QtGLVideoItemPrivate) (old c : GstCaps) :
  qt_item w = item_ptr ->
  priv (item w) = Some p ->
  caps p = Some old ->
  gst_caps_is_fixed c = true ->
  gst_caps_is_equal_fixed old c = true ->
  setCaps (Some c) w = (true, w).
Proof.
  intros Q P C F E. unfold setCaps, same_caps.
  rewrite F, Q, P, C, E. reflexivity.
Qed.

(** ** Properties of setBuffer *)

Definition timeout_warning : Event :=
  EvWarning "Timed out waiting for rendering to finish".

(** The render thread only ever clears waiting_on_render. *)
Lemma render_cycle_frame (w : World) :
  qt_item (render_cycle w) = qt_item w
  /\ now (render_cycle w) = now w
  /\ log (render_cycle w) = log w
  /\ (waiting (render_cycle w) = true -> waiting w = true).
Proof.
  unfold render_cycle, waiting.
  destruct (priv (item w)) as [p|] eqn:P;
    [|rewrite P; repeat split; intros H; exact H].
  unfold paint.
  destruct (m_openGlContextInitialized (item w)); cbn [negb].
  - destruct (caps p); cbn; repeat split; discriminate.
  - cbn. repeat split. intros H; exact H.
Qed.

Lemma suspend_frame (env : Env) (i : nat) (w : World) :
  qt_item (suspend env i w) = qt_item w
  /\ now (suspend env i w) = now w
  /\ log (suspend env i w) = log w
  /\ (waiting (suspend env i w) = true -> waiting w = true).
Proof.
  unfold suspend. destruct (render_runs env i); [apply render_cycle_frame|].
  repeat split. intros H; exact H.
Qed.

Lemma sleep_for_1ms_frame (env : Env) (i : nat) (w : World) :
  qt_item (sleep_for_1ms env i w) = qt_item w
  /\ now (sleep_for_1ms env i w) = now w + 1 + Z.of_nat (oversleep env i)
  /\ log (sleep_for_1ms env i w)
     = EvSleep (1 + Z.of_nat (oversleep env i)) :: log w
  /\ (waiting (sleep_for_1ms env i w) = true -> waiting w = true).
Proof.
  destruct (suspend_frame env i w) as (Q & N & L & W).
  unfold sleep_for_1ms, waiting in *. cbn [qt_item now log item].
  rewrite N, L. repeat split; [exact Q | lia | exact W].
Qed.

Lemma wait_for_render_idle (env : Env) (fuel i : nat) (until : Z) (w : World) :
  waiting w = false -> wait_for_render env fuel i until w = Some w.
Proof. intros E. destruct fuel; cbn; rewrite E; reflexivity. Qed.

(** The wait returns as soon as the deadline is within [fuel] sleeps. *)
Lemma wait_for_render_returns (env : Env) (M : nat) :
  forall (fuel i : nat) (until : Z) (w : World),
    (waiting w = true -> now w <= until < now w + Z.of_nat fuel) ->
    (forall j, (i <= j < i + fuel)%nat -> (oversleep env j <= M)%nat) ->
    exists w',
      wait_for_render env fuel i until w = Some w'
      /\ qt_item w' = qt_item w
      /\ (sleeps (log w') <= sleeps (log w) + fuel)%nat
      /\ update_requests (log w') = update_requests (log w)
      /\ now w <= now w'
      /\ (waiting w = true -> now w' <= until + 1 + Z.of_nat M)
      /\ (waiting w = false -> w' = w)
      /\ (waiting w' = true -> exists l, log w' = timeout_warning :: l).
Proof.
  induction fuel as [|fuel IH]; intros i until w D O.
  - destruct (waiting w) eqn:W; [specialize (D eq_refl); lia|].
    exists w. rewrite (wait_for_render_idle env 0 i until w W).
    repeat split; try lia; try discriminate; auto; congruence.
  - destruct (waiting w) eqn:W.
    2:{ exists w. rewrite (wait_for_render_idle env (S fuel) i until w W).
        repeat split; try lia; try discriminate; auto; congruence. }
    specialize (D eq_refl).
    destruct (sleep_for_1ms_frame env i w) as (Q1 & N1 & L1 & W1).
    assert (Oi : (oversleep env i <= M)%nat) by (apply O; lia).
    cbn [wait_for_render]. rewrite W. cbn [negb].
    set (w1 := sleep_for_1ms env i w) in *.
    destruct (waiting w1 && (until <? now w1)) eqn:B.
    + apply andb_prop in B. destruct B as [B1 B2].
      exists (emit timeout_warning w1). split; [reflexivity|].
      unfold emit; cbn [qt_item log now]. rewrite L1, N1.
      unfold sleeps, update_requests; cbn.
      repeat split; try lia; try discriminate; eauto.
    + destruct (IH (S i) until w1) as (w' & R & Q & S & U & N & T & I & Wn).
      * intros Ww. rewrite Ww, andb_true_l in B.
        apply Z.ltb_ge in B. lia.
      * intros j Hj. apply O. lia.
      * exists w'. split; [exact R|].
        rewrite L1 in S, U. unfold sleeps, update_requests in *.
        cbn in S, U.
        repeat split; try congruence; try lia; try discriminate; auto.
        intros _. destruct (waiting w1) eqn:Ww; [auto|].
        rewrite (I eq_refl). lia.
Qed.

Lemma wait_for_render_more_fuel (env : Env) :
  forall (fuel k i : nat) (until : Z) (w w' : World),
    wait_for_render env fuel i until w = Some w' ->
    wait_for_render env (fuel + k) i until w = Some w'.
Proof.
  induction fuel as [|fuel IH]; intros k i until w w' H.
  - cbn in H. destruct (waiting w) eqn:W; [discriminate|].
    cbn in H. inversion H; subst. apply wait_for_render_idle; assumption.
  - cbn [wait_for_render Nat.add] in *.
    destruct (negb (waiting w)); [assumption|].
    destruct (waiting (sleep_for_1ms env i w)
              && (until <? now (sleep_for_1ms env i w))); [assumption|].
    apply IH; assumption.
Qed.

Lemma max_oversleep_bound (env : Env) (n j : nat) :
  (j <= n)%nat -> (oversleep env j <= max_oversleep env n)%nat.
Proof.
  induction n as [|n IH]; intros H; cbn.
  - replace j with O by lia. lia.
  - destruct (Nat.eq_dec j (S n)) as [->|Hne]; [lia|].
    specialize (IH ltac:(lia)). lia.
Qed.

(** A frame handed to an item whose thread never runs the queued "update"
    call is stored and the producer stays blocked in that call. *)
Lemma setBuffer_update_not_served
    (env : Env) (fuel : nat) (buffer : option GstBuffer) (w : World)
    (p : QtGLVideoItemPrivate) :
  qt_item w = item_ptr ->
  priv (item w) = Some p ->
  negotiated p = true ->
  update_served env = false ->
  setBuffer env fuel buffer w = None.
Proof.
  intros Q P N U. unfold setBuffer. rewrite Q, P, N, U. reflexivity.
Qed.

(** C9, as the code has it: once the frame is stored and the blocking
    "update" call has returned, setBuffer returns after at most 101 sleeps
    of 1 ms, whatever the render thread does: 101 iterations are always
    enough, more allowance changes nothing, exactly one repaint was
    requested, the clock has advanced by at most 101 ms plus the longest
    oversleep, and a call that returns with waiting_on_render still set has
    logged the time-out warning last. *)
Theorem setBuffer_bounded_wait
    (env : Env) (buffer : option GstBuffer) (w : World)
    (p : QtGLVideoItemPrivate) :
  qt_item w = item_ptr ->
  priv (item w) = Some p ->
  negotiated p = true ->
  update_served env = true ->
  exists w',
    setBuffer env 101 buffer w = Some w'
    /\ (forall fuel, (101 <= fuel)%nat ->
                     setBuffer env fuel buffer w = Some w')
    /\ update_requests (log w') = S (update_requests (log w))
    /\ (sleeps (log w') <= sleeps (log w) + 101)%nat
    /\ now w <= now w' <= now w + 101 + Z.of_nat (max_oversleep env 101)
    /\ (waiting w' = true -> exists l, log w' = timeout_warning :: l).
Proof.
  intros Q P N Served. unfold setBuffer. rewrite Q, P, N, Served. cbn [negb].
  set (w0 := suspend env 0
               (emit EvUpdate
                  (set_world_priv w
                     (set_waiting_on_render (set_back_buffer p buffer) true)))).
  destruct (suspend_frame env 0
              (emit EvUpdate
                 (set_world_priv w
                    (set_waiting_on_render (set_back_buffer p buffer) true))))
    as (Q0 & N0 & L0 & _).
  fold w0 in Q0, N0, L0. cbn in N0, L0.
  destruct (wait_for_render_returns env (max_oversleep env 101)
              101 1 (now w0 + 100) w0)
    as (w' & R & _ & S & U & Nw & T & I & Wn).
  - intros _. lia.
  - intros j Hj. apply max_oversleep_bound. lia.
  - exists w'. split; [exact R|]. split.
    { intros fuel Hf. replace fuel with (101 + (fuel - 101))%nat by lia.
      apply wait_for_render_more_fuel. exact R. }
    rewrite L0 in S, U. unfold sleeps, update_requests in *. cbn in S, U.
    repeat split; try lia; auto.
    destruct (waiting w0) eqn:W0; [specialize (T eq_refl); lia|].
    rewrite (I eq_refl). lia.
Qed.

(** What a failed setCaps leaves behind, as needed for the invariants. *)
Lemma setCaps_failed_cases (c : option GstCaps) (w w' : World) :
  setCaps c w = (false, w') ->
  item w' = item w
  \/ exists p',
       priv (item w') = Some p'
       /\ front_buffer p' = None /\ back_buffer p' = None
       /\ negotiated p' = false /\ waiting_on_render p' = false.
Proof.
  unfold setCaps. intros H.
  destruct c as [cc|]; [|inversion H; now left].
  destruct (gst_caps_is_fixed cc); cbn [negb] in H; [|inversion H; now left].
  destruct (qt_item w); [inversion H; now left|].
  destruct (priv (item w)) as [p|]; [|inversion H; now left].
  destruct (same_caps p cc); [discriminate|].
  destruct (gst_video_info_from_caps cc) as [vi|]; [|inversion H; now left].
  destruct (_calculate_par (set_caps (_reset p) (Some cc)) vi) as [ok q] eqn:K.
  destruct ok; cbn [negb] in H; [discriminate|].
  assert (D : display_ratio (set_caps (_reset p) (Some cc)) vi = None).
  { apply calculate_par_fails_iff. rewrite K. reflexivity. }
  rewrite (calculate_par_failure_keeps _ _ D) in K.
  inversion K; subst q. inversion H; subst w'.
  right. eexists. cbn. repeat split.
Qed.

(** An unnegotiated buffer is dropped on the spot. *)
Lemma setBuffer_unnegotiated
    (env : Env) (fuel : nat) (buffer : option GstBuffer) (w : World)
    (p : QtGLVideoItemPrivate) :
  priv (item w) = Some p ->
  negotiated p = false ->
  setBuffer env fuel buffer w = Some w
  \/ setBuffer env fuel buffer w
     = Some (emit (EvWarning
                     "Got buffer on unnegotiated QtGLVideoItem. Dropping") w).
Proof.
  intros P N. unfold setBuffer. rewrite P, N.
  destruct (qt_item w); [left|right]; reflexivity.
Qed.

(** The state before any successful negotiation. *)
Definition unnegotiated (w : World) : Prop :=
  exists p,
    priv (item w) = Some p
    /\ negotiated p = false
    /\ front_buffer p = None
    /\ back_buffer p = None
    /\ waiting_on_render p = false.

Lemma new_world_unnegotiated (d : option GstGLDisplay) (b : QRectF) (t : Z) :
  unnegotiated (new_world d b t).
Proof. eexists. cbn. repeat split. Qed.

Ltac unneg_same p :=
  exists p; cbn; repeat split; assumption.

Lemma run_op_unnegotiated (o : Op) (w w' : World) (r : Ret) :
  unnegotiated w ->
  run_op o w = Some (r, w') ->
  setCaps_succeeded o r = false ->
  unnegotiated w'.
Proof.
  intros (p & P & N & F & B & W) R S.
  destruct o; cbn [run_op] in R.
  - (* setBuffer *)
    destruct (setBuffer_unnegotiated env fuel buffer w p P N) as [E|E];
      rewrite E in R; inversion R; subst; unneg_same p.
  - (* setCaps *)
    destruct (setCaps caps0 w) as [b w1] eqn:E. inversion R; subst r w1.
    destruct b; [discriminate|].
    destruct (setCaps_failed_cases _ _ _ E) as [I|I].
    + exists p. rewrite I. repeat split; assumption.
    + destruct I as (p' & P' & F' & B' & N' & W').
      exists p'. repeat split; assumption.
  - (* initWinSys *)
    unfold initWinSys in R. rewrite P in R.
    destruct (qt_item w); [inversion R; subst; unneg_same p|].
    destruct (_ && _); [inversion R; subst; unneg_same p|].
    destruct (display p); [|inversion R; subst; unneg_same p].
    destruct (other_context p); [|inversion R; subst; unneg_same p].
    destruct (gst_gl_context_new g);
      [destruct (gst_gl_context_create g1 g0)|];
      inversion R; subst; eexists; cbn; repeat split; assumption.
  - inversion R; subst; unneg_same p.
  - inversion R; subst; unneg_same p.
  - inversion R; subst; unneg_same p.
  - (* setDAR *)
    unfold setDAR, QtGLVideoItem_setDAR in R. rewrite P in R.
    destruct (qt_item w); inversion R; subst;
      [unneg_same p | eexists; cbn; repeat split; assumption].
  - unfold getDAR, QtGLVideoItem_getDAR in R. rewrite P in R.
    destruct (qt_item w); inversion R; subst; unneg_same p.
  - (* setForceAspectRatio *)
    unfold setForceAspectRatio, QtGLVideoItem_setForceAspectRatio in R.
    rewrite P in R.
    destruct (qt_item w); inversion R; subst;
      [unneg_same p | eexists; cbn; repeat split; assumption].
  - unfold getForceAspectRatio, QtGLVideoItem_getForceAspectRatio in R.
    rewrite P in R.
    destruct (qt_item w); inversion R; subst; unneg_same p.
  - (* invalidateRef *)
    inversion R; subst. unfold invalidateRef. rewrite P.
    destruct (qt_item w); [unneg_same p|].
    eexists; cbn; repeat split.
  - (* updatePaintNode *)
    unfold updatePaintNode, paint in R. rewrite P in R.
    destruct (m_openGlContextInitialized (item w)); cbn [negb] in R;
      [|inversion R; subst; unneg_same p].
    destruct (caps p); inversion R; subst;
      eexists; cbn; repeat split; assumption.
  - (* onSceneGraphInitialized *)
    unfold onSceneGraphInitialized in R. rewrite P in R.
    destruct (same_qt_context (qt_context p) win_ctx);
      [inversion R; subst; unneg_same p|].
    destruct win_ctx; [|discriminate].
    cbn in R.
    destruct (gst_qt_get_gl_wrapcontext _ _ _) as [[ok other] ctx].
    inversion R; subst. eexists; cbn; repeat split; assumption.
  - unfold handleWindowChanged_null in R. rewrite P in R.
    inversion R; subst. eexists; cbn; repeat split; assumption.
  - inversion R; subst. unneg_same p.
Qed.

Lemma run_unnegotiated :
  forall (ops : list Op) (w w' : World) (rs : list Ret),
    unnegotiated w ->
    run ops w = Some (rs, w') ->
    any_setCaps_succeeded ops rs = false ->
    unnegotiated w'.
Proof.
  induction ops as [|o ops IH]; intros w w' rs U R S.
  - inversion R; subst; assumption.
  - cbn [run] in R.
    destruct (run_op o w) as [[r w1]|] eqn:E; [|discriminate].
    destruct (run ops w1) as [[rs1 w2]|] eqn:E1; [|discriminate].
    inversion R; subst rs w2.
    cbn [any_setCaps_succeeded] in S. apply orb_false_elim in S.
    destruct S as [S1 S2].
    apply (IH w1 w' rs1); [|assumption|assumption].
    apply (run_op_unnegotiated o w w1 r); assumption.
Qed.

(** In every state the frame slots are empty and waiting_on_render is
    clear while negotiated is false. *)
Definition consistent (w : World) : Prop :=
  exists p,
    priv (item w) = Some p
    /\ (negotiated p = false ->
        front_buffer p = None /\ back_buffer p = None
        /\ waiting_on_render p = false).

Lemma unnegotiated_consistent (w : World) : unnegotiated w -> consistent w.
Proof.
  intros (p & P & N & F & B & W). exists p. split; [exact P|].
  intros _. repeat split; assumption.
Qed.

Lemma render_cycle_consistent (w : World) :
  consistent w -> consistent (render_cycle w).
Proof.
  intros (p & P & I). unfold render_cycle, paint. rewrite P.
  destruct (m_openGlContextInitialized (item w)); cbn [negb];
    [|exists p; cbn; split; [reflexivity|exact I]].
  destruct (caps p); eexists; cbn; (split; [reflexivity|]);
    intros N; destruct (I N) as (F & B & W); repeat split; assumption.
Qed.

Lemma suspend_consistent (env : Env) (i : nat) (w : World) :
  consistent w -> consistent (suspend env i w).
Proof.
  intros C. unfold suspend.
  destruct (render_runs env i); [apply render_cycle_consistent|]; exact C.
Qed.

Lemma wait_for_render_consistent (env : Env) :
  forall (fuel i : nat) (until : Z) (w w' : World),
    consistent w ->
    wait_for_render env fuel i until w = Some w' ->
    consistent w'.
Proof.
  induction fuel as [|fuel IH]; intros i until w w' C R;
    cbn [wait_for_render] in R;
    destruct (negb (waiting w)); try (inversion R; subst; exact C);
    try discriminate.
  assert (C1 : consistent (sleep_for_1ms env i w))
    by (apply (suspend_consistent env i w C)).
  destruct (waiting (sleep_for_1ms env i w)
            && (until <? now (sleep_for_1ms env i w))).
  - inversion R; subst. exact C1.
  - apply (IH (S i) until _ w' C1 R).
Qed.

Lemma setBuffer_consistent
    (env : Env) (fuel : nat) (buffer : option GstBuffer) (w w' : World) :
  consistent w ->
  setBuffer env fuel buffer w = Some w' ->
  consistent w'.
Proof.
  intros C R. pose proof C as (p & P & I).
  unfold setBuffer in R. rewrite P in R.
  destruct (qt_item w); [inversion R; subst; exact C|].
  destruct (negotiated p) eqn:N; cbn [negb] in R;
    [|inversion R; subst; exact C].
  destruct (update_served env); cbn [negb] in R; [|discriminate].
  revert R. apply wait_for_render_consistent. apply suspend_consistent.
  eexists. cbn. split; [reflexivity|].
  intros H. cbn in H. congruence.
Qed.

Lemma setCaps_success (c : option GstCaps) (w w' : World) :
  setCaps c w = (true, w') ->
  w' = w
  \/ exists p', priv (item w') = Some p' /\ negotiated p' = true.
Proof.
  unfold setCaps. intros H.
  destruct c as [cc|]; [|discriminate].
  destruct (gst_caps_is_fixed cc); cbn [negb] in H; [|discriminate].
  destruct (qt_item w); [discriminate|].
  destruct (priv (item w)) as [p|]; [|discriminate].
  destruct (same_caps p cc); [inversion H; now left|].
  destruct (gst_video_info_from_caps cc) as [vi|]; [|discriminate].
  destruct (_calculate_par (set_caps (_reset p) (Some cc)) vi) as [ok q].
  destruct ok; cbn [negb] in H; [|discriminate].
  inversion H; subst. right. eexists. cbn. split; reflexivity.
Qed.

Lemma run_op_consistent (o : Op) (w w' : World) (r : Ret) :
  consistent w -> run_op o w = Some (r, w') -> consistent w'.
Proof.
  intros C R. pose proof C as (p & P & I).
  destruct o; cbn [run_op] in R.
  - destruct (setBuffer env fuel buffer w) as [w1|] eqn:E; [|discriminate].
    inversion R; subst. apply (setBuffer_consistent _ _ _ _ _ C E).
  - destruct (setCaps caps0 w) as [b w1] eqn:E. inversion R; subst r w1.
    destruct b.
    + destruct (setCaps_success _ _ _ E) as [->|(p' & P' & N')];
        [exact C|].
      exists p'. split; [exact P'|]. rewrite N'. discriminate.
    + destruct (setCaps_failed_cases _ _ _ E) as [J|J].
      * exists p. rewrite J. split; assumption.
      * destruct J as (p' & P' & F' & B' & N' & W').
        exists p'. split; [exact P'|]. intros _. repeat split; assumption.
  - unfold initWinSys in R. rewrite P in R.
    destruct (qt_item w); [inversion R; subst; exact C|].
    destruct (_ && _); [inversion R; subst; exact C|].
    destruct (display p); [|inversion R; subst; exact C].
    destruct (other_context p); [|inversion R; subst; exact C].
    destruct (gst_gl_context_new g);
      [destruct (gst_gl_context_create g1 g0)|];
      inversion R; subst; eexists; cbn; (split; [reflexivity|exact I]).
  - inversion R; subst; exact C.
  - inversion R; subst; exact C.
  - inversion R; subst; exact C.
  - unfold setDAR, QtGLVideoItem_setDAR in R. rewrite P in R.
    destruct (qt_item w); inversion R; subst;
      [exact C | eexists; cbn; (split; [reflexivity|exact I])].
  - unfold getDAR, QtGLVideoItem_getDAR in R. rewrite P in R.
    destruct (qt_item w); inversion R; subst; exact C.
  - unfold setForceAspectRatio, QtGLVideoItem_setForceAspectRatio in R.
    rewrite P in R.
    destruct (qt_item w); inversion R; subst;
      [exact C | eexists; cbn; (split; [reflexivity|exact I])].
  - unfold getForceAspectRatio, QtGLVideoItem_getForceAspectRatio in R.
    rewrite P in R.
    destruct (qt_item w); inversion R; subst; exact C.
  - inversion R; subst. unfold invalidateRef. rewrite P.
    destruct (qt_item w); [exact C|].
    eexists; cbn. split; [reflexivity|]. repeat split.
  - pose proof (render_cycle_consistent w C) as C'.
    unfold updatePaintNode in R. unfold render_cycle in C'.
    rewrite P in R, C'.
    destruct (m_openGlContextInitialized (item w)); cbn [negb] in R;
      [|inversion R; subst; exact C].
    destruct (paint true (boundingRect (item w)) (paintNode w) p)
      as [n p'].
    inversion R; subst. destruct C' as (q & Q & J). exists q.
    split; [exact Q|exact J].
  - unfold onSceneGraphInitialized in R. rewrite P in R.
    destruct (same_qt_context (qt_context p) win_ctx);
      [inversion R; subst; exact C|].
    destruct win_ctx; [|discriminate].
    cbn in R.
    destruct (gst_qt_get_gl_wrapcontext _ _ _) as [[ok other] ctx].
    inversion R; subst. eexists; cbn. split; [reflexivity|exact I].
  - unfold handleWindowChanged_null in R. rewrite P in R.
    inversion R; subst. eexists; cbn. split; [reflexivity|exact I].
  - inversion R; subst. exists p. split; [exact P|exact I].
Qed.

Lemma run_consistent :
  forall (ops : list Op) (w w' : World) (rs : list Ret),
    consistent w -> run ops w = Some (rs, w') -> consistent w'.
Proof.
  induction ops as [|o ops IH]; intros w w' rs C R.
  - inversion R; subst; exact C.
  - cbn [run] in R.
    destruct (run_op o w) as [[r w1]|] eqn:E; [|discriminate].
    destruct (run ops w1) as [[rs1 w2]|] eqn:E1; [|discriminate].
    inversion R; subst rs w2.
    apply (IH w1 w' rs1); [|exact E1].
    apply (run_op_consistent o w w1 r C E).
Qed.

(** C7: after any calls since construction the private state is there,
    negotiated is false if no setCaps among them returned TRUE, and while
    negotiated is false setBuffer returns at once and drops the buffer: the
    item is as it was, with both frame slots empty and waiting_on_render
    clear, no repaint was requested and no time was spent waiting. *)
Theorem setBuffer_before_negotiation
    (ops : list Op) (d : option GstGLDisplay) (b : QRectF) (t : Z)
    (rs : list Ret) (w : World)
    (env : Env) (fuel : nat) (buffer : option GstBuffer) :
  run ops (new_world d b t) = Some (rs, w) ->
  exists p,
    priv (item w) = Some p
    /\ (any_setCaps_succeeded ops rs = false -> negotiated p = false)
    /\ (negotiated p = false ->
        exists w',
          setBuffer env fuel buffer w = Some w'
          /\ item w' = item w
          /\ paintNode w' = paintNode w
          /\ now w' = now w
          /\ update_requests (log w') = update_requests (log w)
          /\ front_buffer p = None
          /\ back_buffer p = None
          /\ waiting_on_render p = false).
Proof.
  intros R.
  pose proof (run_consistent ops _ w rs
                (unnegotiated_consistent _ (new_world_unnegotiated d b t)) R)
    as (p & P & I).
  exists p. split; [exact P|]. split.
  - intros S.
    destruct (run_unnegotiated ops _ w rs (new_world_unnegotiated d b t) R S)
      as (q & Q & N & _).
    congruence.
  - intros N. destruct (I N) as (F & B & W).
    destruct (setBuffer_unnegotiated env fuel buffer w p P N) as [E|E];
      rewrite E; eexists; (split; [reflexivity|]);
      repeat split; assumption.
Qed.

(** ** Properties of the invalidated proxy *)

Lemma invalidateRef_nullptr (w : World) : qt_item (invalidateRef w) = nullptr.
Proof.
  unfold invalidateRef. destruct (qt_item w) eqn:Q; [exact Q|reflexivity].
Qed.

(** With a null [qt_item], a proxy call returns its failure value and
    leaves the world alone, but for the g_return_val_if_fail message. *)
Lemma run_op_nullptr (o : Op) (w : World) :
  qt_item w = nullptr ->
  is_proxy_op o = true ->
  run_op o w = Some (failure_value o, w)
  \/ run_op o w = Some (failure_value o, emit EvCritical w).
Proof.
  intros Q P. destruct o; try discriminate P; cbn [run_op failure_value].
  - unfold setBuffer. rewrite Q. now left.
  - unfold setCaps. rewrite Q.
    destruct caps0 as [c|]; [|now right].
    destruct (gst_caps_is_fixed c); [now left|now right].
  - unfold initWinSys. rewrite Q. now left.
  - unfold getQtContext. rewrite Q. now left.
  - unfold getContext. rewrite Q. now left.
  - unfold getDisplay. rewrite Q. now left.
  - unfold setDAR. rewrite Q. now left.
  - unfold getDAR. rewrite Q. now left.
  - unfold setForceAspectRatio. rewrite Q. now left.
  - unfold getForceAspectRatio. rewrite Q. now left.
  - unfold invalidateRef. rewrite Q. left. destruct w; cbn in *. reflexivity.
Qed.

Lemma run_nullptr :
  forall (ops : list Op) (w : World),
    qt_item w = nullptr ->
    forallb is_proxy_op ops = true ->
    exists w',
      run ops w = Some (map failure_value ops, w')
      /\ qt_item w' = nullptr
      /\ item w' = item w
      /\ paintNode w' = paintNode w
      /\ now w' = now w
      /\ update_requests (log w') = update_requests (log w)
      /\ sleeps (log w') = sleeps (log w).
Proof.
  induction ops as [|o ops IH]; intros w Q F.
  - exists w. repeat split; assumption.
  - cbn [forallb] in F. apply andb_prop in F. destruct F as [F1 F2].
    cbn [run map].
    destruct (run_op_nullptr o w Q F1) as [E|E]; rewrite E.
    + destruct (IH w Q F2) as (w' & R & H).
      exists w'. rewrite R. split; [reflexivity|exact H].
    + destruct (IH (emit EvCritical w) Q F2) as (w' & R & H).
      exists w'. rewrite R. split; [reflexivity|exact H].
Qed.

(** C8: after invalidateRef, any sequence of proxy calls returns: each call
    yields its failure value (FALSE, NULL or nothing), the link stays null,
    the item with its frame slots is not touched, no repaint is requested
    and no call sleeps. *)
Theorem proxy_ops_after_invalidateRef (w : World) (ops : list Op) :
  forallb is_proxy_op ops = true ->
  exists w',
    run ops (invalidateRef w) = Some (map failure_value ops, w')
    /\ qt_item w' = nullptr
    /\ item w' = item (invalidateRef w)
    /\ paintNode w' = paintNode (invalidateRef w)
    /\ now w' = now (invalidateRef w)
    /\ update_requests (log w') = update_requests (log (invalidateRef w))
    /\ sleeps (log w') = sleeps (log (invalidateRef w)).
Proof.
  intros F. apply run_nullptr; [apply invalidateRef_nullptr|exact F].
Qed.

(** ** Further properties: renegotiation *)

(** The display size only depends on the override and the video info. *)
Lemma calculate_par_display_size_ext (p q : QtGLVideoItemPrivate)
    (info : GstVideoInfo) :
  display_par p = display_par q ->
  fst (_calculate_par p info) = fst (_calculate_par q info)
  /\ (fst (_calculate_par q info) = true ->
      display_width (snd (_calculate_par p info))
      = display_width (snd (_calculate_par q info))
      /\ display_height (snd (_calculate_par p info))
         = display_height (snd (_calculate_par q info))).
Proof.
  intros E. unfold _calculate_par.
  rewrite (display_ratio_ext p q info E).
  destruct (display_ratio q info) as [[n d]|]; [|split; [reflexivity|]];
    [|cbn; discriminate].
  repeat match goal with |- context [if ?c then _ else _] => destruct c end;
    cbn; split; try reflexivity; intros _; split; reflexivity.
Qed.

(** X1: a setCaps that succeeds with caps other than the stored ones leaves
    a renegotiated item: both frame slots empty, waiting_on_render and
    initted clear, the new caps and their video info stored, negotiated set,
    the display size the one _calculate_par gives for the old state, and the
    settings and GL handles as they were. *)
Theorem setCaps_renegotiates
    (c : GstCaps) (w w' : World) (p : QtGLVideoItemPrivate) :
  priv (item w) = Some p ->
  same_caps p c = false ->
  setCaps (Some c) w = (true, w') ->
  exists p' info,
    priv (item w') = Some p'
    /\ gst_caps_is_fixed c = true
    /\ gst_video_info_from_caps c = Some info
    /\ fst (_calculate_par p info) = true
    /\ caps p' = Some c /\ v_info p' = info /\ negotiated p' = true
    /\ front_buffer p' = None /\ back_buffer p' = None
    /\ waiting_on_render p' = false /\ initted p' = false
    /\ display_width p' = display_width (snd (_calculate_par p info))
    /\ display_height p' = display_height (snd (_calculate_par p info))
    /\ force_aspect_ratio p' = force_aspect_ratio p
    /\ par_n p' = par_n p /\ par_d p' = par_d p
    /\ display p' = display p /\ qt_context p' = qt_context p
    /\ other_context p' = other_context p /\ context p' = context p
    /\ qt_item w' = qt_item w /\ log w' = log w /\ now w' = now w.
Proof.
  intros P S H. unfold setCaps in H.
  destruct (gst_caps_is_fixed c) eqn:F; cbn [negb] in H; [|discriminate].
  destruct (qt_item w) eqn:Q; [discriminate|].
  rewrite P, S in H.
  destruct (gst_video_info_from_caps c) as [vi|] eqn:V; [|discriminate].
  destruct (calculate_par_display_size_ext
              (set_caps (_reset p) (Some c)) p vi (reset_display_par p (Some c)))
    as (E1 & E2).
  destruct (_calculate_par (set_caps (_reset p) (Some c)) vi) as [ok q] eqn:K.
  cbn [fst snd] in E1, E2.
  destruct ok; cbn [negb] in H; [|discriminate].
  inversion H; subst w'. clear H.
  destruct (E2 (eq_sym E1)) as (Ew & Eh).
  assert (R : set_display_size q (display_width (set_caps (_reset p) (Some c)))
                (display_height (set_caps (_reset p) (Some c)))
              = set_caps (_reset p) (Some c)).
  { revert K. unfold _calculate_par.
    destruct (display_ratio (set_caps (_reset p) (Some c)) vi) as [[n d]|];
      [|discriminate].
    repeat match goal with |- context [if ?b then _ else _] => destruct b end;
      intros K; inversion K; reflexivity. }
  exists (set_negotiated_info q vi), vi.
  assert (Fields :
    caps q = Some c /\ front_buffer q = None /\ back_buffer q = None
    /\ waiting_on_render q = false /\ initted q = false
    /\ force_aspect_ratio q = force_aspect_ratio p
    /\ par_n q = par_n p /\ par_d q = par_d p
    /\ display q = display p /\ qt_context q = qt_context p
    /\ other_context q = other_context p /\ context q = context p).
  { destruct q. cbn in R. inversion R. cbn. repeat split. }
  destruct Fields as (F1 & F2 & F3 & F4 & F5 & F6 & F7 & F8 & F9 & F10
                      & F11 & F12).
  cbn. rewrite Q. repeat split; auto.
Qed.

(** ** Further properties: the paint cycle *)

(** X2: two paint cycles in a row, with caps stored and nothing delivered in
    between, put the frame slots back as they were: the second cycle hands
    the texture the buffer that was in front before the first. *)
Theorem updatePaintNode_twice_restores_slots
    (oldNode : option QSGSimpleTextureNode) (it : QtGLVideoItem)
    (p : QtGLVideoItemPrivate) (c : GstCaps) :
  m_openGlContextInitialized it = true ->
  priv it = Some p ->
  caps p = Some c ->
  exists n1 it1 n2 it2 p2,
    updatePaintNode oldNode it = Some (Some n1, it1)
    /\ updatePaintNode (Some n1) it1 = Some (Some n2, it2)
    /\ tex_buffer n1 = back_buffer p
    /\ tex_buffer n2 = front_buffer p
    /\ priv it2 = Some p2
    /\ front_buffer p2 = front_buffer p
    /\ back_buffer p2 = back_buffer p
    /\ waiting_on_render p2 = false.
Proof.
  intros I P C.
  set (p1 := set_waiting_on_render (swap_buffers p) false).
  set (p2 := set_waiting_on_render (swap_buffers p1) false).
  assert (C1 : caps p1 = Some c) by exact C.
  destruct (paint true (boundingRect it) oldNode p) as [o1 q1] eqn:E1.
  assert (H1 : exists n1, o1 = Some n1 /\ tex_buffer n1 = back_buffer p
                          /\ q1 = p1).
  { unfold paint in E1. cbn [negb] in E1. rewrite C in E1.
    inversion E1. eexists. repeat split. }
  destruct H1 as (n1 & -> & T1 & ->).
  destruct (paint true (boundingRect it) (Some n1) p1) as [o2 q2] eqn:E2.
  assert (H2 : exists n2, o2 = Some n2 /\ tex_buffer n2 = front_buffer p
                          /\ q2 = p2).
  { unfold paint in E2. cbn [negb] in E2. rewrite C1 in E2.
    inversion E2. eexists. repeat split. }
  destruct H2 as (n2 & -> & T2 & ->).
  exists n1, (set_priv it p1), n2, (set_priv (set_priv it p1) p2), p2.
  unfold updatePaintNode. rewrite I, P. cbn [negb]. rewrite E1.
  split; [reflexivity|].
  cbn [m_openGlContextInitialized set_priv priv boundingRect negb].
  rewrite I. cbn [negb]. rewrite E2.
  repeat split; assumption.
Qed.

(** ** Further properties: delivery *)

(** X3: a frame delivered to a negotiated, initialised item whose render
    thread paints while the "update" call is being served is presented at
    once: setBuffer returns without sleeping, whatever its allowance, the
    frame is in the front slot and in the texture, the previous front frame
    is in the back slot, and waiting_on_render is clear. *)
Theorem setBuffer_presented_at_once
    (env : Env) (fuel : nat) (buffer : option GstBuffer) (w : World)
    (p : QtGLVideoItemPrivate) (c : GstCaps) :
  qt_item w = item_ptr ->
  priv (item w) = Some p ->
  negotiated p = true ->
  caps p = Some c ->
  m_openGlContextInitialized (item w) = true ->
  update_served env = true ->
  render_runs env 0 = true ->
  exists w' p' n,
    setBuffer env fuel buffer w = Some w'
    /\ priv (item w') = Some p'
    /\ front_buffer p' = buffer
    /\ back_buffer p' = front_buffer p
    /\ waiting_on_render p' = false
    /\ paintNode w' = Some n
    /\ tex_buffer n = buffer
    /\ tex_caps n = Some c
    /\ now w' = now w
    /\ log w' = EvUpdate :: log w.
Proof.
  intros Q P N C I U R. unfold setBuffer. rewrite Q, P, N, U. cbn [negb].
  unfold suspend. rewrite R.
  unfold render_cycle, emit, set_world_priv, set_item, set_priv.
  cbn [item priv m_openGlContextInitialized boundingRect paintNode qt_item
       now log].
  rewrite I. unfold paint. cbn [negb].
  cbn [caps set_waiting_on_render set_back_buffer]. rewrite C.
  do 3 eexists. split.
  - apply wait_for_render_idle. reflexivity.
  - cbn. repeat split.
Qed.

(** An environment in which nothing clears waiting_on_render: the GL context
    is not initialised, or the render thread never runs. *)
Definition never_painted (env : Env) (it : QtGLVideoItem) : Prop :=
  m_openGlContextInitialized it = false
  \/ forall i, render_runs env i = false.

Lemma suspend_never_painted (env : Env) (i : nat) (w : World) :
  never_painted env (item w) -> suspend env i w = w.
Proof.
  intros [H|H]; unfold suspend; [|rewrite H; reflexivity].
  destruct (render_runs env i); [|reflexivity].
  unfold render_cycle, paint.
  destruct (priv (item w)) as [p|] eqn:P; [|reflexivity].
  rewrite H. cbn [negb].
  destruct w as [q it n t l]. destruct it as [pr ini b].
  cbn in *. subst pr. reflexivity.
Qed.

Lemma wait_for_render_times_out (env : Env) :
  forall (fuel i : nat) (until : Z) (w : World),
    waiting w = true ->
    never_painted env (item w) ->
    now w <= until < now w + Z.of_nat fuel ->
    exists w',
      wait_for_render env fuel i until w = Some w'
      /\ item w' = item w
      /\ paintNode w' = paintNode w
      /\ qt_item w' = qt_item w
      /\ (exists l, log w' = timeout_warning :: l)
      /\ until < now w'.
Proof.
  induction fuel as [|fuel IH]; intros i until w W H D; [lia|].
  cbn [wait_for_render]. rewrite W. cbn [negb].
  unfold sleep_for_1ms. rewrite (suspend_never_painted env i w H).
  set (d := 1 + Z.of_nat (oversleep env i)).
  set (w1 := mkWorld (qt_item w) (item w) (paintNode w) (now w + d)
               (EvSleep d :: log w)).
  assert (W1 : waiting w1 = true) by exact W.
  rewrite W1. cbn [andb].
  destruct (until <? now w1) eqn:B.
  - apply Z.ltb_lt in B. eexists. split; [reflexivity|].
    cbn. repeat split; eauto.
  - apply Z.ltb_ge in B.
    destruct (IH (S i) until w1 W1 H) as (w' & R & E1 & E2 & E3 & E4 & E5).
    + split; [exact B|]. subst w1 d. cbn [now]. lia.
    + exists w'. split; [exact R|]. repeat split; assumption.
Qed.

(** X4: when the GL context is not initialised, or the render thread never
    runs, a frame delivered to a negotiated item costs the producer the
    whole wait: setBuffer returns through the time-out warning, more than
    100 ms later, with the frame parked in the back slot, the front slot as
    it was and waiting_on_render still set. *)
Theorem setBuffer_times_out
    (env : Env) (buffer : option GstBuffer) (w : World)
    (p : QtGLVideoItemPrivate) :
  qt_item w = item_ptr ->
  priv (item w) = Some p ->
  negotiated p = true ->
  update_served env = true ->
  never_painted env (item w) ->
  exists w' p',
    setBuffer env 101 buffer w = Some w'
    /\ priv (item w') = Some p'
    /\ back_buffer p' = buffer
    /\ front_buffer p' = front_buffer p
    /\ waiting_on_render p' = true
    /\ paintNode w' = paintNode w
    /\ (exists l, log w' = timeout_warning :: l)
    /\ now w + 100 < now w'.
Proof.
  intros Q P N U H. unfold setBuffer. rewrite Q, P, N, U. cbn [negb].
  set (p1 := set_waiting_on_render (set_back_buffer p buffer) true).
  set (w0 := emit EvUpdate (set_world_priv w p1)).
  assert (H0 : never_painted env (item w0)).
  { destruct H as [H|H]; [left|right; exact H]. exact H. }
  rewrite (suspend_never_painted env 0 w0 H0).
  destruct (wait_for_render_times_out env 101 1 (now w0 + 100) w0)
    as (w' & R & E1 & E2 & E3 & E4 & E5).
  - reflexivity.
  - exact H0.
  - lia.
  - exists w', p1. split; [exact R|]. rewrite E1, E2.
    repeat split; try reflexivity; try assumption.
Qed.

(** ** Further properties: invalidation and settings *)

(** X5: invalidateRef on a live link drops both frames and the caps, clears
    negotiated, initted and waiting_on_render, cuts the link, and keeps the
    settings, the display size and the GL handles; a second invalidateRef
    changes nothing. *)
Theorem invalidateRef_resets_once (w : World) (p : QtGLVideoItemPrivate) :
  qt_item w = item_ptr ->
  priv (item w) = Some p ->
  exists p',
    priv (item (invalidateRef w)) = Some p'
    /\ qt_item (invalidateRef w) = nullptr
    /\ front_buffer p' = None /\ back_buffer p' = None /\ caps p' = None
    /\ negotiated p' = false /\ initted p' = false
    /\ waiting_on_render p' = false
    /\ force_aspect_ratio p' = force_aspect_ratio p
    /\ par_n p' = par_n p /\ par_d p' = par_d p
    /\ display_width p' = display_width p
    /\ display_height p' = display_height p
    /\ display p' = display p /\ qt_context p' = qt_context p
    /\ other_context p' = other_context p /\ context p' = context p
    /\ paintNode (invalidateRef w) = paintNode w
    /\ invalidateRef (invalidateRef w) = invalidateRef w.
Proof.
  intros Q P. unfold invalidateRef at 1 2 3. rewrite Q, P.
  exists (_reset p). cbn. repeat split.
  unfold invalidateRef. rewrite Q, P. reflexivity.
Qed.

(** X6: through a live proxy the settings read back as written: getDAR
    returns the pair given to setDAR and getForceAspectRatio the flag given
    to setForceAspectRatio, each independently of the other; neither setter
    touches the frame slots, the caps or negotiated. *)
Theorem proxy_settings_round_trip
    (w : World) (p : QtGLVideoItemPrivate) (num den : Z) (b : bool) :
  qt_item w = item_ptr ->
  priv (item w) = Some p ->
  exists w1 w2 p2,
    setDAR num den w = Some w1
    /\ getDAR w1 = Some (Some (num, den))
    /\ setForceAspectRatio b w1 = Some w2
    /\ getForceAspectRatio w2 = Some b
    /\ getDAR w2 = Some (Some (num, den))
    /\ priv (item w2) = Some p2
    /\ front_buffer p2 = front_buffer p /\ back_buffer p2 = back_buffer p
    /\ caps p2 = caps p /\ negotiated p2 = negotiated p
    /\ waiting_on_render p2 = waiting_on_render p.
Proof.
  intros Q P.
  set (p1 := set_par p num den).
  set (w1 := set_item w (set_priv (item w) p1)).
  set (p2 := set_force_aspect_ratio p1 b).
  set (w2 := set_item w1 (set_priv (item w1) p2)).
  exists w1, w2, p2.
  unfold setDAR, QtGLVideoItem_setDAR. rewrite Q, P. cbn [option_map].
  split; [reflexivity|].
  unfold getDAR, QtGLVideoItem_getDAR, setForceAspectRatio,
    QtGLVideoItem_setForceAspectRatio, getForceAspectRatio,
    QtGLVideoItem_getForceAspectRatio.
  cbn. rewrite Q. cbn. repeat split.
Qed.

(** X7: setDAR does not recompute the display size, and setCaps with the
    stored caps stays a no-op afterwards: a new display aspect ratio is not
    applied until caps other than the stored ones are set. *)
Theorem setDAR_not_applied_until_caps_change
    (w : World) (p : QtGLVideoItemPrivate) (old c : GstCaps) (num den : Z) :
  qt_item w = item_ptr ->
  priv (item w) = Some p ->
  caps p = Some old ->
  gst_caps_is_fixed c = true ->
  gst_caps_is_equal_fixed old c = true ->
  exists w1 p1,
    setDAR num den w = Some w1
    /\ priv (item w1) = Some p1
    /\ par_n p1 = num /\ par_d p1 = den
    /\ display_width p1 = display_width p
    /\ display_height p1 = display_height p
    /\ setCaps (Some c) w1 = (true, w1).
Proof.
  intros Q P C F E.
  set (p1 := set_par p num den).
  exists (set_item w (set_priv (item w) p1)), p1.
  unfold setDAR, QtGLVideoItem_setDAR. rewrite Q, P. cbn [option_map].
  split; [reflexivity|]. cbn.
  repeat split.
  unfold setCaps, same_caps. cbn. rewrite F, Q, C, E. reflexivity.
Qed.

(** ** Further properties: GL set-up *)

(** X8: when initWinSys returns TRUE the display, the wrapped context and
    the item's own context are all there, and neither the frame slots, the
    caps nor negotiated were touched; with the Qt context recorded as well,
    calling it again is a no-op returning TRUE. *)
Theorem initWinSys_success (w w' : World) :
  initWinSys w = (true, w') ->
  exists p p',
    priv (item w) = Some p
    /\ priv (item w') = Some p'
    /\ qt_item w' = item_ptr
    /\ is_some (display p') = true
    /\ is_some (other_context p') = true
    /\ is_some (context p') = true
    /\ front_buffer p' = front_buffer p /\ back_buffer p' = back_buffer p
    /\ caps p' = caps p /\ negotiated p' = negotiated p
    /\ (is_some (qt_context p') = true -> initWinSys w' = (true, w')).
Proof.
  unfold initWinSys at 1. intros H.
  destruct (qt_item w) eqn:Q; [discriminate|].
  destruct (priv (item w)) as [p|] eqn:P; [|discriminate].
  destruct (is_some (display p) && is_some (qt_context p)
            && is_some (other_context p) && is_some (context p)) eqn:A.
  - inversion H; subst w'. exists p, p.
    apply andb_prop in A. destruct A as [A A4].
    apply andb_prop in A. destruct A as [A A3].
    apply andb_prop in A. destruct A as [A1 A2].
    repeat split; try assumption.
    intros _. unfold initWinSys. rewrite Q, P, A1, A2, A3, A4. reflexivity.
  - destruct (display p) as [d|] eqn:D; [|discriminate].
    destruct (other_context p) as [o|] eqn:O; [|discriminate].
    destruct (gst_gl_context_new d) as [c|]; [|discriminate].
    destruct (gst_gl_context_create c o); [|discriminate].
    inversion H; subst w'. exists p, (set_context p (Some c)).
    cbn. rewrite D, O, Q. repeat split.
    intros X. unfold initWinSys. cbn. rewrite Q, D, O, X. reflexivity.
Qed.

(** X9: when gst_gl_context_create fails, initWinSys returns FALSE but
    leaves the context it has just made in place; with the Qt context
    recorded, the next initWinSys finds all four handles, returns TRUE and
    does not try to create the context again. *)
Theorem initWinSys_retry_after_failed_create
    (w : World) (p : QtGLVideoItemPrivate)
    (d : GstGLDisplay) (o c : GstGLContext) :
  qt_item w = item_ptr ->
  priv (item w) = Some p ->
  display p = Some d ->
  is_some (qt_context p) = true ->
  other_context p = Some o ->
  context p = None ->
  gst_gl_context_new d = Some c ->
  gst_gl_context_create c o = false ->
  exists w1,
    initWinSys w = (false, w1)
    /\ getContext w1 = Some c
    /\ initWinSys w1 = (true, w1).
Proof.
  intros Q P D X O C N K.
  unfold initWinSys at 1. rewrite Q, P, D, X, O, C, N, K. cbn.
  eexists. split; [reflexivity|]. split.
  - unfold getContext. cbn. rewrite Q. reflexivity.
  - unfold initWinSys. cbn. rewrite Q, D, X, O. reflexivity.
Qed.

(** X10: onSceneGraphInitialized is idempotent: called again with the
    context it has just returned for, it changes nothing (the comparison of
    a context with itself being true). *)
Theorem onSceneGraphInitialized_idempotent
    (c : QOpenGLContext) (it it' : QtGLVideoItem) :
  QOpenGLContext_eqb c c = true ->
  onSceneGraphInitialized (Some c) it = Some it' ->
  onSceneGraphInitialized (Some c) it' = Some it'.
Proof.
  intros E H. unfold onSceneGraphInitialized in H.
  destruct (priv it) as [p|] eqn:P; [|discriminate].
  destruct (same_qt_context (qt_context p) (Some c)) eqn:S.
  - inversion H; subst it'. unfold onSceneGraphInitialized.
    rewrite P, S. reflexivity.
  - cbn in H.
    destruct (gst_qt_get_gl_wrapcontext (display p) (other_context p)
                (context p)) as [[ok other] ctx].
    inversion H; subst it'. unfold onSceneGraphInitialized. cbn.
    rewrite E. reflexivity.
Qed.

(** X11: with a null window context, onSceneGraphInitialized reaches its
    assertion exactly when a Qt context is recorded; after
    handleWindowChanged with a null window it returns without touching the
    item, and the paint path stays enabled. *)
Theorem onSceneGraphInitialized_null_context
    (it : QtGLVideoItem) (p : QtGLVideoItemPrivate) :
  priv it = Some p ->
  (onSceneGraphInitialized None it = None <-> qt_context p <> None)
  /\ exists it1,
       handleWindowChanged_null it = Some it1
       /\ onSceneGraphInitialized None it1 = Some it1
       /\ m_openGlContextInitialized it1 = m_openGlContextInitialized it.
Proof.
  intros P. split.
  - unfold onSceneGraphInitialized. rewrite P.
    destruct (qt_context p); cbn; split; congruence.
  - unfold handleWindowChanged_null. rewrite P. cbn.
    eexists. split; [reflexivity|]. split; reflexivity.
Qed.

(** ** Further properties: what every run keeps *)

(** While negotiated is set, fixed caps are stored and [v_info] is what they
    parse to. *)
Definition well_negotiated (w : World) : Prop :=
  exists p,
    priv (item w) = Some p
    /\ (negotiated p = true ->
        exists c,
          caps p = Some c
          /\ gst_caps_is_fixed c = true
          /\ gst_video_info_from_caps c = Some (v_info p)).

Lemma new_world_well_negotiated (d : option GstGLDisplay) (b : QRectF) (t : Z) :
  well_negotiated (new_world d b t).
Proof. eexists. cbn. split; [reflexivity|discriminate]. Qed.

Lemma render_cycle_well_negotiated (w : World) :
  well_negotiated w -> well_negotiated (render_cycle w).
Proof.
  intros (p & P & I). unfold render_cycle, paint. rewrite P.
  destruct (m_openGlContextInitialized (item w)); cbn [negb];
    [|exists p; cbn; split; [reflexivity|exact I]].
  destruct (caps p) eqn:C; eexists; cbn; (split; [reflexivity|]);
    intros N; destruct (I N) as (c & C' & F & V); exists c; cbn;
    (split; [congruence|split; assumption]).
Qed.

Lemma wait_for_render_well_negotiated (env : Env) :
  forall (fuel i : nat) (until : Z) (w w' : World),
    well_negotiated w ->
    wait_for_render env fuel i until w = Some w' ->
    well_negotiated w'.
Proof.
  induction fuel as [|fuel IH]; intros i until w w' C R;
    cbn [wait_for_render] in R;
    destruct (negb (waiting w)); try (inversion R; subst; exact C);
    try discriminate.
  assert (C1 : well_negotiated (sleep_for_1ms env i w)).
  { unfold sleep_for_1ms, suspend.
    destruct (render_runs env i);
      [apply render_cycle_well_negotiated in C|]; exact C. }
  destruct (waiting (sleep_for_1ms env i w)
            && (until <? now (sleep_for_1ms env i w))).
  - inversion R; subst. exact C1.
  - apply (IH (S i) until _ w' C1 R).
Qed.

Lemma setBuffer_well_negotiated
    (env : Env) (fuel : nat) (buffer : option GstBuffer) (w w' : World) :
  well_negotiated w ->
  setBuffer env fuel buffer w = Some w' ->
  well_negotiated w'.
Proof.
  intros C R. pose proof C as (p & P & I).
  unfold setBuffer in R. rewrite P in R.
  destruct (qt_item w); [inversion R; subst; exact C|].
  destruct (negotiated p) eqn:N; cbn [negb] in R;
    [|inversion R; subst; exact C].
  destruct (update_served env); cbn [negb] in R; [|discriminate].
  revert R. apply wait_for_render_well_negotiated.
  unfold suspend.
  assert (C0 : well_negotiated
                 (emit EvUpdate
                    (set_world_priv w
                       (set_waiting_on_render (set_back_buffer p buffer)
                          true)))).
  { eexists. cbn. split; [reflexivity|]. intros _. exact (I eq_refl). }
  destruct (render_runs env 0);
    [apply render_cycle_well_negotiated|]; exact C0.
Qed.

Lemma setCaps_well_negotiated (c : option GstCaps) (w w' : World) (b : bool) :
  well_negotiated w ->
  setCaps c w = (b, w') ->
  well_negotiated w'.
Proof.
  intros C H. pose proof C as (p & P & I). unfold setCaps in H.
  destruct c as [cc|]; [|inversion H; subst; exact C].
  destruct (gst_caps_is_fixed cc) eqn:F; cbn [negb] in H;
    [|inversion H; subst; exact C].
  destruct (qt_item w); [inversion H; subst; exact C|].
  rewrite P in H.
  destruct (same_caps p cc); [inversion H; subst; exact C|].
  destruct (gst_video_info_from_caps cc) as [vi|] eqn:V;
    [|inversion H; subst; exact C].
  destruct (_calculate_par (set_caps (_reset p) (Some cc)) vi) as [ok q] eqn:K.
  assert (Q : caps q = Some cc /\ (ok = false -> negotiated q = false)).
  { revert K. unfold _calculate_par.
    destruct (display_ratio (set_caps (_reset p) (Some cc)) vi) as [[n d]|];
      repeat match goal with |- context [if ?x then _ else _] => destruct x end;
      intros K; inversion K; split; reflexivity || discriminate. }
  destruct Q as (Q1 & Q2).
  destruct ok; cbn [negb] in H; inversion H; subst; eexists; cbn;
    (split; [reflexivity|]).
  - intros _. exists cc. repeat split; assumption.
  - rewrite (Q2 eq_refl). discriminate.
Qed.

Lemma run_op_well_negotiated (o : Op) (w w' : World) (r : Ret) :
  well_negotiated w -> run_op o w = Some (r, w') -> well_negotiated w'.
Proof.
  intros C R. pose proof C as (p & P & I).
  destruct o; cbn [run_op] in R.
  - destruct (setBuffer env fuel buffer w) as [w1|] eqn:E; [|discriminate].
    inversion R; subst. apply (setBuffer_well_negotiated _ _ _ _ _ C E).
  - destruct (setCaps caps0 w) as [b w1] eqn:E. inversion R; subst r w1.
    apply (setCaps_well_negotiated _ _ _ _ C E).
  - unfold initWinSys in R. rewrite P in R.
    destruct (qt_item w); [inversion R; subst; exact C|].
    destruct (_ && _); [inversion R; subst; exact C|].
    destruct (display p); [|inversion R; subst; exact C].
    destruct (other_context p); [|inversion R; subst; exact C].
    destruct (gst_gl_context_new g);
      [destruct (gst_gl_context_create g1 g0)|];
      inversion R; subst; eexists; cbn; (split; [reflexivity|exact I]).
  - inversion R; subst; exact C.
  - inversion R; subst; exact C.
  - inversion R; subst; exact C.
  - unfold setDAR, QtGLVideoItem_setDAR in R. rewrite P in R.
    destruct (qt_item w); inversion R; subst;
      [exact C | eexists; cbn; (split; [reflexivity|exact I])].
  - unfold getDAR, QtGLVideoItem_getDAR in R. rewrite P in R.
    destruct (qt_item w); inversion R; subst; exact C.
  - unfold setForceAspectRatio, QtGLVideoItem_setForceAspectRatio in R.
    rewrite P in R.
    destruct (qt_item w); inversion R; subst;
      [exact C | eexists; cbn; (split; [reflexivity|exact I])].
  - unfold getForceAspectRatio, QtGLVideoItem_getForceAspectRatio in R.
    rewrite P in R.
    destruct (qt_item w); inversion R; subst; exact C.
  - inversion R; subst. unfold invalidateRef. rewrite P.
    destruct (qt_item w); [exact C|].
    eexists; cbn. split; [reflexivity|discriminate].
  - pose proof (render_cycle_well_negotiated w C) as C'.
    unfold updatePaintNode in R. unfold render_cycle in C'.
    rewrite P in R, C'.
    destruct (m_openGlContextInitialized (item w)); cbn [negb] in R;
      [|inversion R; subst; exact C].
    destruct (paint true (boundingRect (item w)) (paintNode w) p)
      as [n p'].
    inversion R; subst. destruct C' as (q & Q & J). exists q.
    split; [exact Q|exact J].
  - unfold onSceneGraphInitialized in R. rewrite P in R.
    destruct (same_qt_context (qt_context p) win_ctx);
      [inversion R; subst; exact C|].
    destruct win_ctx; [|discriminate].
    cbn in R.
    destruct (gst_qt_get_gl_wrapcontext _ _ _) as [[ok other] ctx].
    inversion R; subst. eexists; cbn. split; [reflexivity|exact I].
  - unfold handleWindowChanged_null in R. rewrite P in R.
    inversion R; subst. eexists; cbn. split; [reflexivity|exact I].
  - inversion R; subst. exists p. split; [exact P|exact I].
Qed.

Lemma run_well_negotiated :
  forall (ops : list Op) (w w' : World) (rs : list Ret),
    well_negotiated w -> run ops w = Some (rs, w') -> well_negotiated w'.
Proof.
  induction ops as [|o ops IH]; intros w w' rs C R.
  - inversion R; subst; exact C.
  - cbn [run] in R.
    destruct (run_op o w) as [[r w1]|] eqn:E; [|discriminate].
    destruct (run ops w1) as [[rs1 w2]|] eqn:E1; [|discriminate].
    inversion R; subst rs w2.
    apply (IH w1 w' rs1); [|exact E1].
    apply (run_op_well_negotiated o w w1 r C E).
Qed.

(** X12: in every state reached from construction, whatever the calls: a
    negotiated item has fixed caps stored and [v_info] is what they parse
    to; a frame in either slot, or waiting_on_render set, means the item is
    negotiated; and an item without caps holds no frame. *)
Theorem negotiation_invariant
    (ops : list Op) (d : option GstGLDisplay) (b : QRectF) (t : Z)
    (rs : list Ret) (w : World) :
  run ops (new_world d b t) = Some (rs, w) ->
  exists p,
    priv (item w) = Some p
    /\ (negotiated p = true ->
        exists c,
          caps p = Some c
          /\ gst_caps_is_fixed c = true
          /\ gst_video_info_from_caps c = Some (v_info p))
    /\ (front_buffer p <> None \/ back_buffer p <> None
        \/ waiting_on_render p = true ->
        negotiated p = true)
    /\ (caps p = None -> front_buffer p = None /\ back_buffer p = None).
Proof.
  intros R.
  pose proof (run_well_negotiated ops _ w rs
                (new_world_well_negotiated d b t) R) as (p & P & I).
  pose proof (run_consistent ops _ w rs
                (unnegotiated_consistent _ (new_world_unnegotiated d b t)) R)
    as (q & Q & J).
  assert (q = p) by congruence. subst q.
  exists p. split; [exact P|]. split; [exact I|]. split.
  - intros H. destruct (negotiated p) eqn:N; [reflexivity|].
    destruct (J eq_refl) as (F & B & W).
    destruct H as [H|[H|H]]; congruence.
  - intros C. destruct (negotiated p) eqn:N.
    + destruct (I eq_refl) as (c & C' & _). congruence.
    + destruct (J eq_refl) as (F & B & _). split; assumption.
Qed.

(** The link is cut by invalidateRef and by nothing else. *)
Definition is_invalidateRef (o : Op) : bool :=
  match o with OpInvalidateRef => true | _ => false end.

Lemma wait_for_render_qt_item (env : Env) :
  forall (fuel i : nat) (until : Z) (w w' : World),
    wait_for_render env fuel i until w = Some w' -> qt_item w' = qt_item w.
Proof.
  induction fuel as [|fuel IH]; intros i until w w' R;
    cbn [wait_for_render] in R;
    destruct (negb (waiting w)); try (inversion R; subst; reflexivity);
    try discriminate.
  destruct (sleep_for_1ms_frame env i w) as (Q & _).
  destruct (waiting (sleep_for_1ms env i w)
            && (until <? now (sleep_for_1ms env i w))).
  - inversion R; subst. exact Q.
  - rewrite (IH _ _ _ _ R). exact Q.
Qed.

Lemma run_op_qt_item (o : Op) (w w' : World) (r : Ret) :
  run_op o w = Some (r, w') ->
  qt_item w' = if is_invalidateRef o then nullptr else qt_item w.
Proof.
  intros R. destruct o; cbn [run_op is_invalidateRef] in *.
  - unfold setBuffer in R.
    destruct (qt_item w) eqn:Q; [inversion R; subst; exact Q|].
    destruct (priv (item w)) as [p|]; [|inversion R; subst; exact Q].
    destruct (negb (negotiated p)); [inversion R; subst; exact Q|].
    destruct (negb (update_served env)); [discriminate|].
    destruct (wait_for_render env fuel 1 _ _) as [w1|] eqn:E; [|discriminate].
    inversion R; subst. rewrite (wait_for_render_qt_item _ _ _ _ _ _ E).
    destruct (suspend_frame env 0
                (emit EvUpdate
                   (set_world_priv w
                      (set_waiting_on_render (set_back_buffer p buffer) true))))
      as (Q0 & _).
    rewrite Q0. exact Q.
  - unfold setCaps in R.
    destruct caps0 as [c|]; [|inversion R; reflexivity].
    destruct (negb (gst_caps_is_fixed c)); [inversion R; reflexivity|].
    destruct (qt_item w) eqn:Q; [inversion R; subst; exact Q|].
    destruct (priv (item w)) as [p|]; [|inversion R; subst; exact Q].
    destruct (same_caps p c); [inversion R; subst; exact Q|].
    destruct (gst_video_info_from_caps c); [|inversion R; subst; exact Q].
    destruct (_calculate_par _ _) as [ok q].
    destruct (negb ok); inversion R; subst; exact Q.
  - unfold initWinSys in R.
    destruct (qt_item w) eqn:Q; [inversion R; subst; exact Q|].
    destruct (priv (item w)) as [p|]; [|inversion R; subst; exact Q].
    destruct (_ && _); [inversion R; subst; exact Q|].
    destruct (display p); [|inversion R; subst; exact Q].
    destruct (other_context p); [|inversion R; subst; exact Q].
    destruct (gst_gl_context_new g);
      [destruct (gst_gl_context_create g1 g0)|];
      inversion R; subst; exact Q.
  - inversion R; reflexivity.
  - inversion R; reflexivity.
  - inversion R; reflexivity.
  - unfold setDAR in R. destruct (qt_item w) eqn:Q;
      [inversion R; subst; exact Q|].
    destruct (QtGLVideoItem_setDAR num den (item w)); inversion R; subst.
    exact Q.
  - destruct (getDAR w); inversion R; reflexivity.
  - unfold setForceAspectRatio in R. destruct (qt_item w) eqn:Q;
      [inversion R; subst; exact Q|].
    destruct (QtGLVideoItem_setForceAspectRatio b (item w));
      inversion R; subst. exact Q.
  - destruct (getForceAspectRatio w); inversion R; reflexivity.
  - inversion R; subst. apply invalidateRef_nullptr.
  - destruct (updatePaintNode (paintNode w) (item w)); inversion R; reflexivity.
  - destruct (onSceneGraphInitialized win_ctx (item w)); inversion R;
      reflexivity.
  - destruct (handleWindowChanged_null (item w)); inversion R; reflexivity.
  - inversion R; reflexivity.
Qed.

(** X13: over any run of producer and render calls, the proxy's link is
    null at the end exactly when it was null at the start or invalidateRef
    was among the calls: no other call cuts the link, and none restores
    it. *)
Theorem link_cut_only_by_invalidateRef :
  forall (ops : list Op) (w w' : World) (rs : list Ret),
    run ops w = Some (rs, w') ->
    qt_item w' = if existsb is_invalidateRef ops then nullptr else qt_item w.
Proof.
  induction ops as [|o ops IH]; intros w w' rs R.
  - inversion R; reflexivity.
  - cbn [run] in R.
    destruct (run_op o w) as [[r w1]|] eqn:E; [|discriminate].
    destruct (run ops w1) as [[rs1 w2]|] eqn:E1; [|discriminate].
    inversion R; subst rs w2.
    rewrite (IH _ _ _ E1), (run_op_qt_item _ _ _ _ E).
    cbn [existsb].
    destruct (is_invalidateRef o), (existsb is_invalidateRef ops); reflexivity.
Qed.

(** ** Further properties: the wait ends with the paint *)

Lemma wait_for_render_painted (env : Env) (until : Z) :
  forall (m fuel i : nat) (w : World) (p : QtGLVideoItemPrivate) (c : GstCaps),
    priv (item w) = Some p ->
    waiting_on_render p = true ->
    caps p = Some c ->
    m_openGlContextInitialized (item w) = true ->
    (forall j, (i <= j < i + m)%nat -> render_runs env j = false) ->
    render_runs env (i + m) = true ->
    (forall j, oversleep env j = O) ->
    now w + Z.of_nat m <= until ->
    (m < fuel)%nat ->
    exists w' n,
      wait_for_render env fuel i until w = Some w'
      /\ item w'
         = set_priv (item w) (set_waiting_on_render (swap_buffers p) false)
      /\ paintNode w' = Some n
      /\ tex_buffer n = back_buffer p
      /\ now w' = now w + Z.of_nat (S m)
      /\ log w' = repeat (EvSleep 1) (S m) ++ log w.
Proof.
  induction m as [|m IH]; intros fuel i w p c P W C I Idle Run Exact D F;
    (destruct fuel as [|fuel]; [lia|]);
    cbn [wait_for_render]; unfold waiting at 1; rewrite P, W; cbn [negb];
    unfold sleep_for_1ms, suspend; rewrite (Exact i).
  - rewrite Nat.add_0_r in Run. rewrite Run.
    unfold render_cycle, paint. rewrite P, I. cbn [negb]. rewrite C.
    cbn [qt_item item paintNode now log Z.of_nat Z.add].
    do 2 eexists. split.
    + unfold waiting at 1. cbn [item priv set_priv waiting_on_render
                                 set_waiting_on_render andb].
      apply wait_for_render_idle. reflexivity.
    + cbn. repeat split.
  - rewrite (Idle i) by lia.
    set (w1 := mkWorld (qt_item w) (item w) (paintNode w)
                 (now w + (1 + Z.of_nat 0)) (EvSleep (1 + Z.of_nat 0) :: log w)).
    assert (N1 : now w1 = now w + 1) by reflexivity.
    unfold waiting at 1. cbn [item w1]. rewrite P, W. cbn [andb].
    destruct (until <? now w1) eqn:B; [apply Z.ltb_lt in B; lia|].
    destruct (IH fuel (S i) w1 p c P W C I) as (w' & n & R & E1 & E2 & E3 & E4 & E5).
    + intros j Hj. apply Idle. lia.
    + replace (S i + m)%nat with (i + S m)%nat by lia. exact Run.
    + exact Exact.
    + rewrite N1. lia.
    + lia.
    + exists w', n. split; [exact R|]. split; [exact E1|].
      split; [exact E2|]. split; [exact E3|]. split.
      * rewrite E4, N1. lia.
      * rewrite E5. cbn [log w1]. change (1 + Z.of_nat 0) with 1.
        change (EvSleep 1 :: log w) with (repeat (EvSleep 1) 1 ++ log w).
        rewrite app_assoc, <- repeat_app.
        replace (S m + 1)%nat with (S (S m)) by lia. reflexivity.
Qed.

(** X14: with exact sleeps, a frame delivered to a negotiated, initialised
    item whose render thread first paints during the [k]-th sleep, for any
    [k] from 1 to 100, is presented by that paint and setBuffer returns
    right after it: after exactly [k] sleeps and [k] ms, without a warning,
    with the frame as the front buffer and in the texture and
    waiting_on_render clear. *)
Theorem setBuffer_returns_when_painted
    (env : Env) (fuel k : nat) (buffer : option GstBuffer) (w : World)
    (p : QtGLVideoItemPrivate) (c : GstCaps) :
  qt_item w = item_ptr ->
  priv (item w) = Some p ->
  negotiated p = true ->
  caps p = Some c ->
  m_openGlContextInitialized (item w) = true ->
  update_served env = true ->
  (forall j, (j < k)%nat -> render_runs env j = false) ->
  render_runs env k = true ->
  (forall j, oversleep env j = O) ->
  (1 <= k <= 100)%nat ->
  (k <= fuel)%nat ->
  exists w' p' n,
    setBuffer env fuel buffer w = Some w'
    /\ priv (item w') = Some p'
    /\ front_buffer p' = buffer
    /\ back_buffer p' = front_buffer p
    /\ waiting_on_render p' = false
    /\ paintNode w' = Some n
    /\ tex_buffer n = buffer
    /\ now w' = now w + Z.of_nat k
    /\ log w' = repeat (EvSleep 1) k ++ EvUpdate :: log w.
Proof.
  intros Q P N C I U Idle Run Exact K F.
  unfold setBuffer. rewrite Q, P, N, U. cbn [negb].
  unfold suspend. rewrite (Idle O) by lia.
  set (p1 := set_waiting_on_render (set_back_buffer p buffer) true).
  set (w0 := emit EvUpdate (set_world_priv w p1)).
  destruct (wait_for_render_painted env (now w0 + 100) (k - 1) fuel 1 w0 p1 c)
    as (w' & n & R & E1 & E2 & E3 & E4 & E5);
    try reflexivity; try assumption; try lia.
  - intros j Hj. apply Idle. lia.
  - replace (1 + (k - 1))%nat with k by lia. exact Run.
  - exists w', (set_waiting_on_render (swap_buffers p1) false), n.
    split; [exact R|]. rewrite E1, E2, E3, E4, E5.
    replace (S (k - 1)) with k by lia.
    cbn. repeat split.
Qed.

End QtItem.

(** ** The embedding on concrete inputs

    The library parameters are instantiated with [Module Gst]; buffers,
    contexts and displays are addresses. *)

Module Sample.

Definition Priv : Type := @QtGLVideoItemPrivate Gst.Caps nat nat nat nat.
Definition W : Type := @World Gst.Caps nat nat nat nat.
Definition Call : Type := @Op Gst.Caps nat nat.

Definition run (ops : list Call) (w : W) : option (list Ret * W) :=
  run Gst.caps_fixed Gst.caps_is_equal_fixed Gst.caps_video
    Gst.video_calculate_display_ratio Gst.util_uint64_scale_int
    Gst.video_sink_center_rect Gst.gl_context_new Gst.gl_context_create
    Gst.qt_get_gl_wrapcontext Nat.eqb ops w.

Definition world_after (ops : list Call) (w : W) : W :=
  match run ops w with
  | Some (_, w') => w'
  | None => w
  end.

(** A render thread that never paints, and one that paints at every
    opportunity; the "update" call is served and sleeps are exact. *)
Definition stalled : Env := mkEnv true (fun _ => false) (fun _ => O).
Definition prompt : Env := mkEnv true (fun _ => true) (fun _ => O).

(** An item whose thread never gets to run the queued "update" call. *)
Definition frozen : Env := mkEnv false (fun _ => false) (fun _ => O).

Definition box_800x600 : QRectF := mkQRectF 0 0 (inject_Z 800) (inject_Z 600).

(** A bounding rectangle 100.5 wide. *)
Definition half_pixel_box : QRectF := mkQRectF 0 0 (201 # 2) (inject_Z 50).

Definition hd_caps : Gst.Caps := Gst.video_caps 1920 1080 1 1.

(** Fixed caps that parse but have no display ratio: the height is 0. *)
Definition flat_caps : Gst.Caps := Gst.video_caps 320 0 1 1.

Definition fresh : W := new_world (Some 7%nat) box_800x600 0.

(** Scene graph ready, caps negotiated, one frame delivered to a renderer
    that does not paint. *)
Definition to_playing : list Call :=
  [OpSceneGraphInitialized (Some 1%nat); OpSetCaps (Some hd_caps);
   OpSetBuffer stalled 101 (Some 42%nat)].

Definition playing : W := Eval vm_compute in world_after to_playing fresh.

(** Scene graph ready, caps negotiated, one frame painted, then the proxy
    invalidated. *)
Definition to_torn_down : list Call :=
  [OpSceneGraphInitialized (Some 1%nat); OpSetCaps (Some hd_caps);
   OpSetBuffer prompt 101 (Some 42%nat); OpInvalidateRef].

Definition torn_down : W := Eval vm_compute in world_after to_torn_down fresh.

Definition the_priv (w : W) : Priv :=
  match priv (item w) with
  | Some p => p
  | None => new_private None
  end.

(** The private state of [playing] with force-aspect-ratio turned off. *)
Definition stretching : Priv :=
  set_force_aspect_ratio (the_priv playing) false.

Definition setCaps (c : option Gst.Caps) (w : W) : bool * W :=
  setCaps Gst.caps_fixed Gst.caps_is_equal_fixed Gst.caps_video
    Gst.video_calculate_display_ratio Gst.util_uint64_scale_int c w.

Definition setBuffer (env : Env) (fuel : nat) (buffer : option nat) (w : W)
  : option W :=
  setBuffer Gst.video_sink_center_rect env fuel buffer w.

(** Calls among which no setCaps returns TRUE: the caps of the first are
    refused by the ratio computation, the second passes a null pointer. *)
Definition startup : list Call :=
  [OpSceneGraphInitialized (Some 1%nat); OpSetCaps (Some flat_caps);
   OpSetCaps None; OpUpdatePaintNode; OpSetDAR 4 3; OpInitWinSys].

Definition startup_rets : list (@Ret nat nat) :=
  Eval vm_compute in
    match run startup fresh with
    | Some (rs, _) => rs
    | None => []
    end.

Definition started : W := Eval vm_compute in world_after startup fresh.

(** One call of each proxy operation. *)
Definition every_proxy_call : list Call :=
  [OpSetBuffer stalled 0 (Some 43%nat); OpSetCaps (Some hd_caps);
   OpSetCaps None; OpInitWinSys; OpGetQtContext; OpGetContext; OpGetDisplay;
   OpSetDAR 4 3; OpGetDAR; OpSetForceAspectRatio false;
   OpGetForceAspectRatio; OpInvalidateRef].

End Sample.

(** ** The reference instance agrees with the arithmetic one expects *)

Lemma to_gint_small (x : Z) : is_gint x -> to_gint x = x.
Proof.
  unfold is_gint, to_gint, G_MAXINT.
  change (2 ^ 31) with 2147483648. change (2 ^ 32) with 4294967296.
  intros H. rewrite Z.mod_small by lia. lia.
Qed.

Lemma to_guint_small (x : Z) : 0 <= x <= G_MAXINT -> to_guint x = x.
Proof.
  unfold to_guint, G_MAXINT.
  change (2 ^ 31) with 2147483648. change (2 ^ 32) with 4294967296.
  intros H. apply Z.mod_small. lia.
Qed.

Lemma to_guint64_small (x : Z) : 0 <= x <= G_MAXINT -> to_guint64 x = x.
Proof.
  unfold to_guint64, G_MAXINT.
  change (2 ^ 31) with 2147483648. change (2 ^ 64) with 18446744073709551616.
  intros H. apply Z.mod_small. lia.
Qed.

(** Within range, the stored size is the scaled value rounded down. *)
Lemma scale_to_gint_exact (val num denom : Z) :
  0 <= val <= G_MAXINT ->
  0 <= num <= G_MAXINT ->
  0 < denom <= G_MAXINT ->
  val * num / denom <= G_MAXINT ->
  scale_to_gint Gst.util_uint64_scale_int val num denom = val * num / denom.
Proof.
  intros Hv Hn Hd Hr.
  assert (H0 : 0 <= val * num / denom).
  { apply Z.div_pos; [apply Z.mul_nonneg_nonneg|]; lia. }
  unfold scale_to_gint, Gst.util_uint64_scale_int.
  rewrite (to_guint64_small val Hv).
  rewrite (to_gint_small num), (to_gint_small denom)
    by (unfold is_gint, G_MAXINT in *; lia).
  destruct (denom <=? 0) eqn:D; [apply Z.leb_le in D; lia|].
  destruct (num <? 0) eqn:N; [apply Z.ltb_lt in N; lia|].
  cbn [orb].
  rewrite Z.min_l
    by (unfold G_MAXUINT64, G_MAXINT in *;
        change (2 ^ 64) with 18446744073709551616;
        change (2 ^ 31) with 2147483648 in Hr; lia).
  rewrite to_guint_small by lia.
  apply to_gint_small. unfold is_gint, G_MAXINT in *. lia.
Qed.

(** The ratio of the reference instance is positive on success. *)
Lemma video_calculate_display_ratio_pos (w h pn pd dn dd num den : Z) :
  Gst.video_calculate_display_ratio w h pn pd dn dd = Some (num, den) ->
  0 < num <= G_MAXINT /\ 0 < den <= G_MAXINT.
Proof.
  unfold Gst.video_calculate_display_ratio.
  set (n := w * pn * dd). set (d := h * pd * dn).
  destruct (n <=? 0) eqn:N; [discriminate|].
  destruct (d <=? 0) eqn:D; [discriminate|]. cbn [orb].
  destruct (G_MAXINT <? n / Z.gcd n d) eqn:A; [discriminate|].
  destruct (G_MAXINT <? d / Z.gcd n d) eqn:B; [discriminate|]. cbn [orb].
  intros H. inversion H; subst num den.
  apply Z.leb_gt in N, D. apply Z.ltb_ge in A, B.
  assert (G : 0 < Z.gcd n d).
  { pose proof (Z.gcd_nonneg n d).
    destruct (Z.eq_dec (Z.gcd n d) 0) as [E|E]; [|lia].
    apply Z.gcd_eq_0_l in E. lia. }
  pose proof (Z.gcd_divide_l n d) as [a Ha].
  pose proof (Z.gcd_divide_r n d) as [b Hb].
  assert (Hn : n / Z.gcd n d = a)
    by (rewrite Ha at 1; apply Z.div_mul; lia).
  assert (Hd : d / Z.gcd n d = b)
    by (rewrite Hb at 1; apply Z.div_mul; lia).
  rewrite Hn, Hd in *. nia.
Qed.

(** ** Further properties: the ratio of the display size

    The library's scaling is taken at its word: [val * num / denom], rounded
    down, for the one call the computation makes. *)

Section DisplaySize.

Context {GstCaps GstBuffer GstGLContext GstGLDisplay QOpenGLContext : Type}.
Variable gst_video_calculate_display_ratio :
  Z -> Z -> Z -> Z -> Z -> Z -> option (Z * Z).
Variable gst_util_uint64_scale_int : Z -> Z -> Z -> Z.

Let Priv : Type :=
  @QtGLVideoItemPrivate GstCaps GstBuffer GstGLContext GstGLDisplay
    QOpenGLContext.

Lemma scale_to_gint_in_range (val num denom : Z) :
  0 <= val <= G_MAXINT ->
  0 <= num <= G_MAXINT ->
  0 < denom <= G_MAXINT ->
  gst_util_uint64_scale_int val num denom = val * num / denom ->
  val * num / denom <= G_MAXINT ->
  scale_to_gint gst_util_uint64_scale_int val num denom = val * num / denom.
Proof.
  intros Hv Hn Hd E Hr.
  assert (H0 : 0 <= val * num / denom).
  { apply Z.div_pos; [apply Z.mul_nonneg_nonneg|]; lia. }
  unfold scale_to_gint.
  rewrite (to_guint64_small val Hv).
  rewrite (to_gint_small num), (to_gint_small denom)
    by (unfold is_gint, G_MAXINT in *; lia).
  rewrite E, to_guint_small by lia.
  apply to_gint_small. unfold is_gint, G_MAXINT in *. lia.
Qed.

Lemma scale_to_gint_wraps (val num denom : Z) :
  0 <= val <= G_MAXINT ->
  0 <= num <= G_MAXINT ->
  0 < denom <= G_MAXINT ->
  gst_util_uint64_scale_int val num denom = val * num / denom ->
  scale_to_gint gst_util_uint64_scale_int val num denom
  = to_gint (to_guint (val * num / denom)).
Proof.
  intros Hv Hn Hd E. unfold scale_to_gint.
  rewrite (to_guint64_small val Hv).
  rewrite (to_gint_small num), (to_gint_small denom)
    by (unfold is_gint, G_MAXINT in *; lia).
  rewrite E. reflexivity.
Qed.

Lemma gint_of_guint_in_range (x : Z) :
  0 <= x <= G_MAXINT -> to_gint (to_guint x) = x.
Proof.
  intros H. rewrite (to_guint_small x H). apply to_gint_small.
  unfold is_gint, G_MAXINT in *. lia.
Qed.

(** C3, as the code has it.  For a video size and a display ratio [num/den]
    within gint, the library's scaling being [val * num / denom] rounded
    down: when the height is a multiple of [den] the height is kept and the
    width is [height * num / den]; otherwise, when the width is a multiple
    of [num], the width is kept and the height is [width * den / num];
    otherwise the first computation is used again.  The scaled value goes
    through a guint into a gint field: it is stored as it is when it fits a
    gint and wrapped modulo 2^32 when it does not.  Nothing else in the
    state changes. *)
Theorem calculate_par_three_branch
    (p : Priv) (info : GstVideoInfo) (num den : Z) :
  let width := GST_VIDEO_INFO_WIDTH info in
  let height := GST_VIDEO_INFO_HEIGHT info in
  let scaled_width := height * num / den in
  let scaled_height := width * den / num in
  display_ratio gst_video_calculate_display_ratio p info = Some (num, den) ->
  0 <= width <= G_MAXINT ->
  0 <= height <= G_MAXINT ->
  0 < num <= G_MAXINT ->
  0 < den <= G_MAXINT ->
  gst_util_uint64_scale_int height num den = scaled_width ->
  gst_util_uint64_scale_int width den num = scaled_height ->
  exists p',
    _calculate_par gst_video_calculate_display_ratio gst_util_uint64_scale_int
      p info = (true, p')
    /\ (if height mod den =? 0 then
          display_height p' = height
          /\ display_width p' = to_gint (to_guint scaled_width)
          /\ (scaled_width <= G_MAXINT -> display_width p' = scaled_width)
        else if width mod num =? 0 then
          display_width p' = width
          /\ display_height p' = to_gint (to_guint scaled_height)
          /\ (scaled_height <= G_MAXINT -> display_height p' = scaled_height)
        else
          display_height p' = height
          /\ display_width p' = to_gint (to_guint scaled_width)
          /\ (scaled_width <= G_MAXINT -> display_width p' = scaled_width))
    /\ set_display_size p' (display_width p) (display_height p) = p.
Proof.
  intros width height sw sh R Hw Hh Hn Hd Ew Eh.
  assert (Sw : 0 <= sw)
    by (apply Z.div_pos; [apply Z.mul_nonneg_nonneg|]; lia).
  assert (Sh : 0 <= sh)
    by (apply Z.div_pos; [apply Z.mul_nonneg_nonneg|]; lia).
  destruct (calculate_par_branches gst_video_calculate_display_ratio
              gst_util_uint64_scale_int p info num den R)
    as (p' & E & B & K).
  fold width height in B.
  rewrite (to_guint_small height Hh), (to_guint_small width Hw) in B.
  rewrite (scale_to_gint_wraps height num den) in B by (assumption || lia).
  rewrite (scale_to_gint_wraps width den num) in B by (assumption || lia).
  fold sw sh in B.
  exists p'. split; [exact E|]. split; [|exact K].
  destruct (height mod den =? 0); [|destruct (width mod num =? 0)];
    destruct B as (B1 & B2); (split; [exact B1|]); (split; [exact B2|]);
    intros L; rewrite B2; apply gint_of_guint_in_range; lia.
Qed.

(** X15: when the height is a multiple of the ratio's denominator (all
    values within gint), the height is kept and the display size has the
    display ratio exactly: display_width * den = display_height * num. *)
Theorem calculate_par_exact_when_height_divides
    (p : Priv) (info : GstVideoInfo) (num den : Z) :
  let height := GST_VIDEO_INFO_HEIGHT info in
  display_ratio gst_video_calculate_display_ratio p info = Some (num, den) ->
  0 <= height <= G_MAXINT ->
  0 <= num <= G_MAXINT ->
  0 < den <= G_MAXINT ->
  height mod den = 0 ->
  gst_util_uint64_scale_int height num den = height * num / den ->
  height * num / den <= G_MAXINT ->
  exists p',
    _calculate_par gst_video_calculate_display_ratio gst_util_uint64_scale_int
      p info = (true, p')
    /\ display_height p' = height
    /\ display_width p' * den = display_height p' * num.
Proof.
  intros height R Hh Hn Hd M E Hr.
  unfold _calculate_par. rewrite R. fold height.
  rewrite (to_guint_small height Hh), M. cbn [Z.eqb].
  eexists. split; [reflexivity|]. cbn [display_height display_width
                                        set_display_size].
  split; [reflexivity|].
  rewrite (scale_to_gint_in_range height num den Hh Hn Hd E Hr).
  apply Z.mod_divide in M; [|lia]. destruct M as [k K].
  rewrite K. replace (k * den * num) with (k * num * den) by ring.
  rewrite Z.div_mul by lia. ring.
Qed.

(** X16: when the height is not a multiple of the denominator but the width
    is a multiple of the numerator (all values within gint), the width is
    kept and the display size has the display ratio exactly:
    display_width * den = display_height * num. *)
Theorem calculate_par_exact_when_width_divides
    (p : Priv) (info : GstVideoInfo) (num den : Z) :
  let width := GST_VIDEO_INFO_WIDTH info in
  let height := GST_VIDEO_INFO_HEIGHT info in
  display_ratio gst_video_calculate_display_ratio p info = Some (num, den) ->
  0 <= height <= G_MAXINT ->
  0 <= width <= G_MAXINT ->
  0 < num <= G_MAXINT ->
  0 <= den <= G_MAXINT ->
  height mod den <> 0 ->
  width mod num = 0 ->
  gst_util_uint64_scale_int width den num = width * den / num ->
  width * den / num <= G_MAXINT ->
  exists p',
    _calculate_par gst_video_calculate_display_ratio gst_util_uint64_scale_int
      p info = (true, p')
    /\ display_width p' = width
    /\ display_width p' * den = display_height p' * num.
Proof.
  intros width height R Hh Hw Hn Hd M1 M2 E Hr.
  unfold _calculate_par. rewrite R. fold width height.
  rewrite (to_guint_small height Hh), (to_guint_small width Hw), M2.
  destruct (height mod den =? 0) eqn:B; [apply Z.eqb_eq in B; contradiction|].
  cbn [Z.eqb].
  eexists. split; [reflexivity|]. cbn [display_height display_width
                                        set_display_size].
  split; [reflexivity|].
  rewrite (scale_to_gint_in_range width den num Hw Hd Hn E Hr).
  apply Z.mod_divide in M2; [|lia]. destruct M2 as [k K].
  rewrite K. replace (k * num * den) with (k * den * num) by ring.
  rewrite Z.div_mul by lia. ring.
Qed.

(** X17: when neither divides (all values within gint), the height is kept
    and the width is the exact width rounded down: it is less than one
    pixel short of the display ratio,
    display_width * den <= display_height * num < (display_width + 1) * den. *)
Theorem calculate_par_approximation_within_a_pixel
    (p : Priv) (info : GstVideoInfo) (num den : Z) :
  let width := GST_VIDEO_INFO_WIDTH info in
  let height := GST_VIDEO_INFO_HEIGHT info in
  display_ratio gst_video_calculate_display_ratio p info = Some (num, den) ->
  0 <= height <= G_MAXINT ->
  0 <= width <= G_MAXINT ->
  0 <= num <= G_MAXINT ->
  0 < den <= G_MAXINT ->
  height mod den <> 0 ->
  width mod num <> 0 ->
  gst_util_uint64_scale_int height num den = height * num / den ->
  height * num / den <= G_MAXINT ->
  exists p',
    _calculate_par gst_video_calculate_display_ratio gst_util_uint64_scale_int
      p info = (true, p')
    /\ display_height p' = height
    /\ display_width p' * den <= display_height p' * num
       < (display_width p' + 1) * den.
Proof.
  intros width height R Hh Hw Hn Hd M1 M2 E Hr.
  unfold _calculate_par. rewrite R. fold width height.
  rewrite (to_guint_small height Hh), (to_guint_small width Hw).
  destruct (height mod den =? 0) eqn:B1; [apply Z.eqb_eq in B1; contradiction|].
  destruct (width mod num =? 0) eqn:B2; [apply Z.eqb_eq in B2; contradiction|].
  eexists. split; [reflexivity|]. cbn [display_height display_width
                                        set_display_size].
  split; [reflexivity|].
  rewrite (scale_to_gint_in_range height num den Hh Hn Hd E Hr).
  pose proof (Z.div_mod (height * num) den ltac:(lia)) as DM.
  pose proof (Z.mod_pos_bound (height * num) den ltac:(lia)) as MB.
  nia.
Qed.

End DisplaySize.

(** The spec's example: 1920x1080 with square pixels and no override stays
    1920x1080. *)
Example calculate_par_1920x1080 :
  _calculate_par Gst.video_calculate_display_ratio Gst.util_uint64_scale_int
    (new_private (Some 7%nat) : Sample.Priv) (mkVideoInfo 1920 1080 1 1)
  = (true, set_display_size (new_private (Some 7%nat)) 1920 1080).
Proof. reflexivity. Qed.

(** PAL DV, 720x576 with 16:15 pixels: ratio 4/3, height kept. *)
Example calculate_par_keeps_height :
  _calculate_par Gst.video_calculate_display_ratio Gst.util_uint64_scale_int
    (new_private (Some 7%nat) : Sample.Priv) (mkVideoInfo 720 576 16 15)
  = (true, set_display_size (new_private (Some 7%nat)) 768 576).
Proof. reflexivity. Qed.

(** 1x1 with 1:2 pixels: ratio 1/2, the height is odd, the width is kept. *)
Example calculate_par_keeps_width :
  _calculate_par Gst.video_calculate_display_ratio Gst.util_uint64_scale_int
    (new_private (Some 7%nat) : Sample.Priv) (mkVideoInfo 1 1 1 2)
  = (true, set_display_size (new_private (Some 7%nat)) 1 2).
Proof. reflexivity. Qed.

(** 3x3 with 2:5 pixels: ratio 2/5, neither divides, height kept and the
    width rounded down. *)
Example calculate_par_approximates :
  _calculate_par Gst.video_calculate_display_ratio Gst.util_uint64_scale_int
    (new_private (Some 7%nat) : Sample.Priv) (mkVideoInfo 3 3 2 5)
  = (true, set_display_size (new_private (Some 7%nat)) 1 3).
Proof. reflexivity. Qed.

(** A source numerator of 0 does not make the computation fail. *)
Example calculate_par_zero_par_n_succeeds :
  _calculate_par Gst.video_calculate_display_ratio Gst.util_uint64_scale_int
    (new_private (Some 7%nat) : Sample.Priv) (mkVideoInfo 1920 1080 0 1)
  = (true, set_display_size (new_private (Some 7%nat)) 1920 1080).
Proof. reflexivity. Qed.

(** ** The theorems at concrete inputs *)

(** The sample worlds are reached from construction by the calls named. *)
Example playing_reached :
  option_map snd (Sample.run Sample.to_playing Sample.fresh)
  = Some Sample.playing.
Proof. vm_compute. reflexivity. Qed.

Example torn_down_reached :
  option_map snd (Sample.run Sample.to_torn_down Sample.fresh)
  = Some Sample.torn_down.
Proof. vm_compute. reflexivity. Qed.

Lemma updatePaintNode_no_caps_witness :
  priv (item Sample.torn_down) = Some (Sample.the_priv Sample.torn_down)
  /\ caps (Sample.the_priv Sample.torn_down) = None
  /\ updatePaintNode Gst.video_sink_center_rect
       (paintNode Sample.torn_down) (item Sample.torn_down)
     = Some (None,
             set_priv (item Sample.torn_down)
               (set_waiting_on_render
                  (Sample.the_priv Sample.torn_down) false)).
Proof.
  split; [reflexivity|]. split; [reflexivity|].
  apply (updatePaintNode_no_caps Gst.video_sink_center_rect
           (paintNode Sample.torn_down) (item Sample.torn_down)
           (Sample.the_priv Sample.torn_down));
    reflexivity.
Defined.

(** C2 as stated fails: with the context initialised, no caps stored and a
    node left from an earlier paint, updatePaintNode returns NULL, not that
    node. *)
Lemma updatePaintNode_no_caps_counterexample :
  m_openGlContextInitialized (item Sample.torn_down) = true
  /\ caps (Sample.the_priv Sample.torn_down) = None
  /\ paintNode Sample.torn_down <> None
  /\ option_map fst
       (updatePaintNode Gst.video_sink_center_rect
          (paintNode Sample.torn_down) (item Sample.torn_down))
     = Some None
  /\ option_map fst
       (updatePaintNode Gst.video_sink_center_rect
          (paintNode Sample.torn_down) (item Sample.torn_down))
     <> Some (paintNode Sample.torn_down).
Proof.
  split; [reflexivity|]. split; [reflexivity|].
  split; [discriminate|]. split; [reflexivity|].
  vm_compute. discriminate.
Qed.

(** C4 as stated fails: the override 0/1, which is the constructor's default,
    is not 0/0, yet the ratio computation is handed 1/1, not 0/1. *)
Lemma display_par_counterexample :
  (par_n (new_private (Some 7%nat) : Sample.Priv),
   par_d (new_private (Some 7%nat) : Sample.Priv)) = (0, 1)
  /\ (0, 1) <> (0, 0)
  /\ display_par (new_private (Some 7%nat) : Sample.Priv) = (1, 1)
  /\ display_par (new_private (Some 7%nat) : Sample.Priv)
     <> (par_n (new_private (Some 7%nat) : Sample.Priv),
         par_d (new_private (Some 7%nat) : Sample.Priv)).
Proof.
  split; [reflexivity|]. split; [discriminate|].
  split; [reflexivity|]. vm_compute. discriminate.
Qed.

Lemma paint_rect_without_force_aspect_witness :
  caps Sample.stretching = Some Sample.hd_caps
  /\ force_aspect_ratio Sample.stretching = false
  /\ destination_rect Gst.video_sink_center_rect false
       (display_width Sample.stretching) (display_height Sample.stretching)
       Sample.box_800x600
     = mkRect 0 0 800 600
  /\ option_map node_rect
       (fst (paint Gst.video_sink_center_rect true Sample.box_800x600 None
               Sample.stretching))
     = Some Sample.box_800x600.
Proof.
  split; [reflexivity|]. split; [reflexivity|].
  destruct (paint_rect_without_force_aspect Gst.video_sink_center_rect None
              Sample.stretching Sample.hd_caps Sample.box_800x600
              eq_refl eq_refl)
    as (D & N & _).
  split; [exact D|exact N].
Defined.

(** C5 as stated fails: a bounding rectangle 100.5 wide gives a destination
    rectangle, and a node rectangle, 100 wide. *)
Lemma destination_rect_counterexample :
  destination_rect Gst.video_sink_center_rect false 1920 1080
    Sample.half_pixel_box
  = mkRect 0 0 100 50
  /\ ~ QRectF_eq
         (QRectF_of_rect
            (destination_rect Gst.video_sink_center_rect false 1920 1080
               Sample.half_pixel_box))
         Sample.half_pixel_box
  /\ option_map node_rect
       (fst (paint Gst.video_sink_center_rect true Sample.half_pixel_box None
               Sample.stretching))
     = Some (mkQRectF 0 0 (inject_Z 100) (inject_Z 50)).
Proof.
  split; [reflexivity|]. split; [|reflexivity].
  unfold QRectF_eq. intros (_ & _ & H & _).
  vm_compute in H. discriminate H.
Qed.

Lemma setCaps_failure_witness :
  Gst.caps_fixed Sample.flat_caps = true
  /\ qt_item Sample.playing = item_ptr
  /\ priv (item Sample.playing) = Some (Sample.the_priv Sample.playing)
  /\ same_caps Gst.caps_is_equal_fixed (Sample.the_priv Sample.playing)
       Sample.flat_caps = false
  /\ Gst.caps_video Sample.flat_caps = Some (mkVideoInfo 320 0 1 1)
  /\ display_ratio Gst.video_calculate_display_ratio
       (Sample.the_priv Sample.playing) (mkVideoInfo 320 0 1 1) = None
  /\ Sample.setCaps (Some Sample.flat_caps) Sample.playing
     = (false,
        set_world_priv Sample.playing
          (set_caps (_reset (Sample.the_priv Sample.playing))
             (Some Sample.flat_caps))).
Proof.
  repeat (split; [reflexivity|]).
  apply (proj1 (setCaps_failure Gst.caps_fixed Gst.caps_is_equal_fixed
                  Gst.caps_video Gst.video_calculate_display_ratio
                  Gst.util_uint64_scale_int)
           Sample.flat_caps Sample.playing (Sample.the_priv Sample.playing)
           (mkVideoInfo 320 0 1 1));
    reflexivity.
Defined.

(** C1 as stated fails: with caps negotiated and a frame in the back slot,
    setCaps with fixed caps of height 0 parses them, resets the state,
    stores them, fails in the ratio computation and returns FALSE: the frame
    is gone, negotiated is false and the stored caps are the new ones. *)
Lemma setCaps_failure_counterexample :
  negotiated (Sample.the_priv Sample.playing) = true
  /\ back_buffer (Sample.the_priv Sample.playing) = Some 42%nat
  /\ caps (Sample.the_priv Sample.playing) = Some Sample.hd_caps
  /\ fst (Sample.setCaps (Some Sample.flat_caps) Sample.playing) = false
  /\ item (snd (Sample.setCaps (Some Sample.flat_caps) Sample.playing))
     <> item Sample.playing
  /\ negotiated
       (Sample.the_priv
          (snd (Sample.setCaps (Some Sample.flat_caps) Sample.playing)))
     = false
  /\ back_buffer
       (Sample.the_priv
          (snd (Sample.setCaps (Some Sample.flat_caps) Sample.playing)))
     = None
  /\ caps
       (Sample.the_priv
          (snd (Sample.setCaps (Some Sample.flat_caps) Sample.playing)))
     = Some Sample.flat_caps.
Proof.
  repeat (split; [reflexivity|]).
  split; [|repeat split; reflexivity].
  vm_compute. discriminate.
Qed.

Lemma setCaps_same_caps_noop_witness :
  qt_item Sample.playing = item_ptr
  /\ priv (item Sample.playing) = Some (Sample.the_priv Sample.playing)
  /\ caps (Sample.the_priv Sample.playing) = Some Sample.hd_caps
  /\ Gst.caps_fixed (Gst.video_caps 1920 1080 1 1) = true
  /\ Gst.caps_is_equal_fixed Sample.hd_caps (Gst.video_caps 1920 1080 1 1)
     = true
  /\ Sample.setCaps (Some (Gst.video_caps 1920 1080 1 1)) Sample.playing
     = (true, Sample.playing).
Proof.
  repeat (split; [reflexivity|]).
  apply (setCaps_same_caps_noop Gst.caps_fixed Gst.caps_is_equal_fixed
           Gst.caps_video Gst.video_calculate_display_ratio
           Gst.util_uint64_scale_int Sample.playing
           (Sample.the_priv Sample.playing) Sample.hd_caps
           (Gst.video_caps 1920 1080 1 1));
    reflexivity.
Defined.

Lemma setBuffer_before_negotiation_witness :
  Sample.run Sample.startup Sample.fresh
  = Some (Sample.startup_rets, Sample.started)
  /\ exists p,
       priv (item Sample.started) = Some p
       /\ (any_setCaps_succeeded Sample.startup Sample.startup_rets = false ->
           negotiated p = false)
       /\ (negotiated p = false ->
           exists w',
             Sample.setBuffer Sample.prompt 101 (Some 42%nat) Sample.started
             = Some w'
             /\ item w' = item Sample.started
             /\ paintNode w' = paintNode Sample.started
             /\ now w' = now Sample.started
             /\ update_requests (log w')
                = update_requests (log Sample.started)
             /\ front_buffer p = None
             /\ back_buffer p = None
             /\ waiting_on_render p = false).
Proof.
  split; [reflexivity|].
  apply (setBuffer_before_negotiation Gst.caps_fixed Gst.caps_is_equal_fixed
           Gst.caps_video Gst.video_calculate_display_ratio
           Gst.util_uint64_scale_int Gst.video_sink_center_rect
           Gst.gl_context_new Gst.gl_context_create Gst.qt_get_gl_wrapcontext
           Nat.eqb Sample.startup (Some 7%nat) Sample.box_800x600 0
           Sample.startup_rets Sample.started Sample.prompt 101
           (Some 42%nat)).
  reflexivity.
Defined.

(** None of the calls of [startup] negotiates, and the frame offered next is
    dropped with a warning. *)
Example setBuffer_before_negotiation_dropped :
  any_setCaps_succeeded Sample.startup Sample.startup_rets = false
  /\ Sample.setBuffer Sample.prompt 101 (Some 42%nat) Sample.started
     = Some (emit (EvWarning
                     "Got buffer on unnegotiated QtGLVideoItem. Dropping")
               Sample.started).
Proof. split; reflexivity. Qed.

Lemma proxy_ops_after_invalidateRef_witness :
  forallb is_proxy_op Sample.every_proxy_call = true
  /\ exists w',
       Sample.run Sample.every_proxy_call (invalidateRef Sample.playing)
       = Some (map failure_value Sample.every_proxy_call, w')
       /\ qt_item w' = nullptr
       /\ item w' = item (invalidateRef Sample.playing)
       /\ paintNode w' = paintNode (invalidateRef Sample.playing)
       /\ now w' = now (invalidateRef Sample.playing)
       /\ update_requests (log w')
          = update_requests (log (invalidateRef Sample.playing))
       /\ sleeps (log w') = sleeps (log (invalidateRef Sample.playing)).
Proof.
  split; [reflexivity|].
  apply (proxy_ops_after_invalidateRef Gst.caps_fixed Gst.caps_is_equal_fixed
           Gst.caps_video Gst.video_calculate_display_ratio
           Gst.util_uint64_scale_int Gst.video_sink_center_rect
           Gst.gl_context_new Gst.gl_context_create Gst.qt_get_gl_wrapcontext
           Nat.eqb Sample.playing Sample.every_proxy_call).
  reflexivity.
Defined.

Lemma setBuffer_bounded_wait_witness :
  qt_item Sample.playing = item_ptr
  /\ priv (item Sample.playing) = Some (Sample.the_priv Sample.playing)
  /\ negotiated (Sample.the_priv Sample.playing) = true
  /\ update_served Sample.stalled = true
  /\ exists w',
       Sample.setBuffer Sample.stalled 101 (Some 43%nat) Sample.playing
       = Some w'
       /\ (forall fuel, (101 <= fuel)%nat ->
             Sample.setBuffer Sample.stalled fuel (Some 43%nat) Sample.playing
             = Some w')
       /\ update_requests (log w')
          = S (update_requests (log Sample.playing))
       /\ (sleeps (log w') <= sleeps (log Sample.playing) + 101)%nat
       /\ now Sample.playing <= now w'
          <= now Sample.playing + 101
             + Z.of_nat (max_oversleep Sample.stalled 101)
       /\ (waiting w' = true -> exists l, log w' = timeout_warning :: l).
Proof.
  split; [reflexivity|]. split; [reflexivity|]. split; [reflexivity|].
  split; [reflexivity|].
  apply (setBuffer_bounded_wait Gst.video_sink_center_rect Sample.stalled
           (Some 43%nat) Sample.playing (Sample.the_priv Sample.playing));
    reflexivity.
Defined.

(** On the model's clock a stalled renderer costs the producer 101 sleeps
    of exactly 1 ms and one warning; a prompt one costs no sleep at all. *)
Example setBuffer_stalled_renderer :
  option_map (fun w => (now w - now Sample.playing,
                        (sleeps (log w) - sleeps (log Sample.playing))%nat,
                        hd EvUpdate (log w)))
    (Sample.setBuffer Sample.stalled 101 (Some 43%nat) Sample.playing)
  = Some (101, 101%nat, timeout_warning).
Proof. vm_compute. reflexivity. Qed.

Example setBuffer_prompt_renderer :
  option_map (fun w => (now w - now Sample.playing,
                        (sleeps (log w) - sleeps (log Sample.playing))%nat,
                        front_buffer (Sample.the_priv w),
                        waiting w))
    (Sample.setBuffer Sample.prompt 0 (Some 43%nat) Sample.playing)
  = Some (0, 0%nat, Some 43%nat, false).
Proof. vm_compute. reflexivity. Qed.

(** C9 as stated fails: the repaint is requested through a blocking queued
    call, so with caps negotiated and an item whose thread never runs
    "update", setBuffer stores the frame and never returns, however long it
    is given: the producer is blocked outside the bounded polling. *)
Lemma setBuffer_blocking_update_counterexample :
  qt_item Sample.playing = item_ptr
  /\ negotiated (Sample.the_priv Sample.playing) = true
  /\ ~ exists fuel w',
        Sample.setBuffer Sample.frozen fuel (Some 43%nat) Sample.playing
        = Some w'.
Proof.
  split; [reflexivity|]. split; [reflexivity|].
  intros (fuel & w' & H).
  unfold Sample.setBuffer in H.
  rewrite (setBuffer_update_not_served Gst.video_sink_center_rect
             Sample.frozen fuel (Some 43%nat) Sample.playing
             (Sample.the_priv Sample.playing)) in H
    by reflexivity.
  discriminate H.
Qed.

(** ** The further properties at concrete inputs *)

Module More.

Definition pal_caps : Gst.Caps := Gst.video_caps 720 576 16 15.

(** The render thread first paints during the third sleep. *)
Definition third : Env := mkEnv true (fun i => Nat.eqb i 3) (fun _ => O).

(** [playing] with the item's own context not made yet. *)
Definition contextless : Sample.W :=
  set_world_priv Sample.playing
    (set_context (Sample.the_priv Sample.playing) None).

(** A library whose gst_gl_context_create fails. *)
Definition initWinSys_failing (w : Sample.W) : bool * Sample.W :=
  initWinSys Gst.gl_context_new (fun _ _ => false) w.

Definition updatePaintNode (n : option (@QSGSimpleTextureNode Gst.Caps nat))
    (it : @QtGLVideoItem Gst.Caps nat nat nat nat) :=
  updatePaintNode Gst.video_sink_center_rect n it.

Definition calculate_par (p : Sample.Priv) (info : GstVideoInfo)
  : bool * Sample.Priv :=
  _calculate_par Gst.video_calculate_display_ratio Gst.util_uint64_scale_int
    p info.

End More.

Lemma setCaps_renegotiates_witness :
  priv (item Sample.playing) = Some (Sample.the_priv Sample.playing)
  /\ same_caps Gst.caps_is_equal_fixed (Sample.the_priv Sample.playing)
       More.pal_caps = false
  /\ fst (Sample.setCaps (Some More.pal_caps) Sample.playing) = true
  /\ exists p',
       priv (item (snd (Sample.setCaps (Some More.pal_caps) Sample.playing)))
       = Some p'
       /\ caps p' = Some More.pal_caps
       /\ negotiated p' = true
       /\ front_buffer p' = None /\ back_buffer p' = None
       /\ waiting_on_render p' = false
       /\ display_width p' = 768 /\ display_height p' = 576.
Proof.
  split; [reflexivity|]. split; [reflexivity|]. split; [reflexivity|].
  destruct (setCaps_renegotiates Gst.caps_fixed Gst.caps_is_equal_fixed
              Gst.caps_video Gst.video_calculate_display_ratio
              Gst.util_uint64_scale_int More.pal_caps Sample.playing
              (snd (Sample.setCaps (Some More.pal_caps) Sample.playing))
              (Sample.the_priv Sample.playing) eq_refl eq_refl eq_refl)
    as (p' & info & P & _ & V & _ & C & _ & N & F & B & W & _ & Dw & Dh & _).
  exists p'. split; [exact P|]. split; [exact C|]. split; [exact N|].
  split; [exact F|]. split; [exact B|]. split; [exact W|].
  assert (info = mkVideoInfo 720 576 16 15) by (cbn in V; congruence).
  subst info. split; [rewrite Dw|rewrite Dh]; reflexivity.
Defined.

Lemma updatePaintNode_twice_restores_slots_witness :
  m_openGlContextInitialized (item Sample.playing) = true
  /\ priv (item Sample.playing) = Some (Sample.the_priv Sample.playing)
  /\ caps (Sample.the_priv Sample.playing) = Some Sample.hd_caps
  /\ back_buffer (Sample.the_priv Sample.playing) = Some 42%nat
  /\ exists n1 it1 n2 it2 p2,
       More.updatePaintNode None (item Sample.playing) = Some (Some n1, it1)
       /\ More.updatePaintNode (Some n1) it1 = Some (Some n2, it2)
       /\ tex_buffer n1 = Some 42%nat
       /\ tex_buffer n2 = None
       /\ priv it2 = Some p2
       /\ front_buffer p2 = None
       /\ back_buffer p2 = Some 42%nat.
Proof.
  split; [reflexivity|]. split; [reflexivity|]. split; [reflexivity|].
  split; [reflexivity|].
  destruct (updatePaintNode_twice_restores_slots Gst.video_sink_center_rect
              None (item Sample.playing) (Sample.the_priv Sample.playing)
              Sample.hd_caps eq_refl eq_refl eq_refl)
    as (n1 & it1 & n2 & it2 & p2 & U1 & U2 & T1 & T2 & P2 & F2 & B2 & _).
  exists n1, it1, n2, it2, p2. repeat split; assumption.
Defined.

Lemma setBuffer_presented_at_once_witness :
  qt_item Sample.playing = item_ptr
  /\ priv (item Sample.playing) = Some (Sample.the_priv Sample.playing)
  /\ negotiated (Sample.the_priv Sample.playing) = true
  /\ caps (Sample.the_priv Sample.playing) = Some Sample.hd_caps
  /\ m_openGlContextInitialized (item Sample.playing) = true
  /\ update_served Sample.prompt = true
  /\ render_runs Sample.prompt 0 = true
  /\ exists w' p' n,
       Sample.setBuffer Sample.prompt 0 (Some 43%nat) Sample.playing = Some w'
       /\ priv (item w') = Some p'
       /\ front_buffer p' = Some 43%nat
       /\ back_buffer p' = front_buffer (Sample.the_priv Sample.playing)
       /\ waiting_on_render p' = false
       /\ paintNode w' = Some n
       /\ tex_buffer n = Some 43%nat
       /\ tex_caps n = Some Sample.hd_caps
       /\ now w' = now Sample.playing
       /\ log w' = EvUpdate :: log Sample.playing.
Proof.
  repeat (split; [reflexivity|]).
  apply (setBuffer_presented_at_once Gst.video_sink_center_rect Sample.prompt
           0 (Some 43%nat) Sample.playing (Sample.the_priv Sample.playing)
           Sample.hd_caps);
    reflexivity.
Defined.

Lemma setBuffer_times_out_witness :
  qt_item Sample.playing = item_ptr
  /\ priv (item Sample.playing) = Some (Sample.the_priv Sample.playing)
  /\ negotiated (Sample.the_priv Sample.playing) = true
  /\ update_served Sample.stalled = true
  /\ never_painted Sample.stalled (item Sample.playing)
  /\ exists w' p',
       Sample.setBuffer Sample.stalled 101 (Some 43%nat) Sample.playing
       = Some w'
       /\ priv (item w') = Some p'
       /\ back_buffer p' = Some 43%nat
       /\ front_buffer p' = front_buffer (Sample.the_priv Sample.playing)
       /\ waiting_on_render p' = true
       /\ paintNode w' = paintNode Sample.playing
       /\ (exists l, log w' = timeout_warning :: l)
       /\ now Sample.playing + 100 < now w'.
Proof.
  assert (H : never_painted Sample.stalled (item Sample.playing))
    by (right; intros i; reflexivity).
  repeat (split; [reflexivity|]). split; [exact H|].
  apply (setBuffer_times_out Gst.video_sink_center_rect Sample.stalled
           (Some 43%nat) Sample.playing (Sample.the_priv Sample.playing));
    try reflexivity.
  exact H.
Defined.

Lemma invalidateRef_resets_once_witness :
  qt_item Sample.playing = item_ptr
  /\ priv (item Sample.playing) = Some (Sample.the_priv Sample.playing)
  /\ back_buffer (Sample.the_priv Sample.playing) = Some 42%nat
  /\ exists p',
       priv (item (invalidateRef Sample.playing)) = Some p'
       /\ qt_item (invalidateRef Sample.playing) = nullptr
       /\ front_buffer p' = None /\ back_buffer p' = None /\ caps p' = None
       /\ negotiated p' = false
       /\ invalidateRef (invalidateRef Sample.playing)
          = invalidateRef Sample.playing.
Proof.
  repeat (split; [reflexivity|]).
  destruct (invalidateRef_resets_once Sample.playing
              (Sample.the_priv Sample.playing) eq_refl eq_refl)
    as (p' & P & Q & F & B & C & N & H).
  exists p'. split; [exact P|]. split; [exact Q|]. split; [exact F|].
  split; [exact B|]. split; [exact C|]. split; [exact N|]. apply H.
Defined.

Lemma proxy_settings_round_trip_witness :
  qt_item Sample.playing = item_ptr
  /\ priv (item Sample.playing) = Some (Sample.the_priv Sample.playing)
  /\ exists w1 w2 : Sample.W,
       setDAR 4 3 Sample.playing = Some w1
       /\ getDAR w1 = Some (Some (4, 3))
       /\ setForceAspectRatio false w1 = Some w2
       /\ getForceAspectRatio w2 = Some false
       /\ getDAR w2 = Some (Some (4, 3)).
Proof.
  split; [reflexivity|]. split; [reflexivity|].
  destruct (proxy_settings_round_trip Sample.playing
              (Sample.the_priv Sample.playing) 4 3 false eq_refl eq_refl)
    as (w1 & w2 & p2 & S1 & G1 & S2 & G2 & G3 & _).
  exists w1, w2. repeat split; assumption.
Defined.

Lemma setDAR_not_applied_until_caps_change_witness :
  qt_item Sample.playing = item_ptr
  /\ priv (item Sample.playing) = Some (Sample.the_priv Sample.playing)
  /\ caps (Sample.the_priv Sample.playing) = Some Sample.hd_caps
  /\ Gst.caps_fixed Sample.hd_caps = true
  /\ Gst.caps_is_equal_fixed Sample.hd_caps Sample.hd_caps = true
  /\ exists (w1 : Sample.W) (p1 : Sample.Priv),
       setDAR 4 3 Sample.playing = Some w1
       /\ priv (item w1) = Some p1
       /\ par_n p1 = 4 /\ par_d p1 = 3
       /\ display_width p1 = 1920
       /\ display_height p1 = 1080
       /\ Sample.setCaps (Some Sample.hd_caps) w1 = (true, w1).
Proof.
  repeat (split; [reflexivity|]).
  apply (setDAR_not_applied_until_caps_change Gst.caps_fixed
           Gst.caps_is_equal_fixed Gst.caps_video
           Gst.video_calculate_display_ratio Gst.util_uint64_scale_int
           Sample.playing (Sample.the_priv Sample.playing) Sample.hd_caps
           Sample.hd_caps 4 3);
    reflexivity.
Defined.

Lemma initWinSys_success_witness :
  initWinSys Gst.gl_context_new Gst.gl_context_create More.contextless
  = (true, snd (initWinSys Gst.gl_context_new Gst.gl_context_create
                  More.contextless))
  /\ getContext More.contextless = None
  /\ exists p',
       priv (item (snd (initWinSys Gst.gl_context_new Gst.gl_context_create
                          More.contextless))) = Some p'
       /\ is_some (display p') = true
       /\ is_some (other_context p') = true
       /\ is_some (context p') = true
       /\ back_buffer p' = Some 42%nat.
Proof.
  split; [reflexivity|]. split; [reflexivity|].
  destruct (initWinSys_success Gst.gl_context_new Gst.gl_context_create
              More.contextless
              (snd (initWinSys Gst.gl_context_new Gst.gl_context_create
                      More.contextless)) eq_refl)
    as (p & p' & P & P' & _ & D & O & C & _ & B & _).
  exists p'. split; [exact P'|]. split; [exact D|]. split; [exact O|].
  split; [exact C|]. rewrite B.
  assert (E : priv (item More.contextless)
              = Some (set_context (Sample.the_priv Sample.playing) None))
    by reflexivity.
  rewrite E in P. inversion P. reflexivity.
Defined.

Lemma initWinSys_retry_after_failed_create_witness :
  qt_item More.contextless = item_ptr
  /\ context (Sample.the_priv More.contextless) = None
  /\ Gst.gl_context_new 7%nat = Some 8%nat
  /\ exists w1,
       More.initWinSys_failing More.contextless = (false, w1)
       /\ getContext w1 = Some 8%nat
       /\ More.initWinSys_failing w1 = (true, w1).
Proof.
  repeat (split; [reflexivity|]).
  apply (initWinSys_retry_after_failed_create Gst.gl_context_new
           (fun _ _ => false) More.contextless
           (Sample.the_priv More.contextless) 7%nat 8%nat 8%nat);
    reflexivity.
Defined.

Lemma onSceneGraphInitialized_idempotent_witness :
  Nat.eqb 1 1 = true
  /\ onSceneGraphInitialized Gst.qt_get_gl_wrapcontext Nat.eqb (Some 1%nat)
       (item Sample.fresh)
     = Some (item (Sample.world_after
                     [OpSceneGraphInitialized (Some 1%nat)] Sample.fresh))
  /\ onSceneGraphInitialized Gst.qt_get_gl_wrapcontext Nat.eqb (Some 1%nat)
       (item (Sample.world_after
                [OpSceneGraphInitialized (Some 1%nat)] Sample.fresh))
     = Some (item (Sample.world_after
                     [OpSceneGraphInitialized (Some 1%nat)] Sample.fresh)).
Proof.
  split; [reflexivity|]. split; [reflexivity|].
  apply (onSceneGraphInitialized_idempotent Gst.qt_get_gl_wrapcontext Nat.eqb
           1%nat (item Sample.fresh)).
  - reflexivity.
  - reflexivity.
Defined.

Lemma onSceneGraphInitialized_null_context_witness :
  priv (item Sample.playing) = Some (Sample.the_priv Sample.playing)
  /\ qt_context (Sample.the_priv Sample.playing) = Some 1%nat
  /\ onSceneGraphInitialized Gst.qt_get_gl_wrapcontext Nat.eqb None
       (item Sample.playing) = None
  /\ exists it1,
       handleWindowChanged_null (item Sample.playing) = Some it1
       /\ onSceneGraphInitialized Gst.qt_get_gl_wrapcontext Nat.eqb None it1
          = Some it1
       /\ m_openGlContextInitialized it1 = true.
Proof.
  split; [reflexivity|]. split; [reflexivity|].
  destruct (onSceneGraphInitialized_null_context Gst.qt_get_gl_wrapcontext
              Nat.eqb (item Sample.playing) (Sample.the_priv Sample.playing)
              eq_refl)
    as (A & it1 & H1 & H2 & H3).
  split.
  - apply A. discriminate.
  - exists it1. split; [exact H1|]. split; [exact H2|]. rewrite H3.
    reflexivity.
Defined.

Lemma negotiation_invariant_witness :
  Sample.run Sample.to_playing Sample.fresh
  = Some ([RetVoid; RetBool true; RetVoid], Sample.playing)
  /\ exists p,
       priv (item Sample.playing) = Some p
       /\ (negotiated p = true ->
           exists c,
             caps p = Some c
             /\ Gst.caps_fixed c = true
             /\ Gst.caps_video c = Some (v_info p)).
Proof.
  split.
  - vm_compute. reflexivity.
  - destruct (negotiation_invariant Gst.caps_fixed Gst.caps_is_equal_fixed
                Gst.caps_video Gst.video_calculate_display_ratio
                Gst.util_uint64_scale_int Gst.video_sink_center_rect
                Gst.gl_context_new Gst.gl_context_create
                Gst.qt_get_gl_wrapcontext Nat.eqb Sample.to_playing
                (Some 7%nat) Sample.box_800x600 0
                [RetVoid; RetBool true; RetVoid] Sample.playing eq_refl)
      as (p & P & I & _).
    exists p. split; [exact P|exact I].
Defined.

Lemma link_cut_only_by_invalidateRef_witness :
  Sample.run Sample.to_torn_down Sample.fresh
  = Some ([RetVoid; RetBool true; RetVoid; RetVoid], Sample.torn_down)
  /\ existsb is_invalidateRef Sample.to_torn_down = true
  /\ qt_item Sample.fresh = item_ptr
  /\ qt_item Sample.torn_down = nullptr.
Proof.
  split; [vm_compute; reflexivity|]. split; [reflexivity|].
  split; [reflexivity|].
  apply (link_cut_only_by_invalidateRef Gst.caps_fixed Gst.caps_is_equal_fixed
           Gst.caps_video Gst.video_calculate_display_ratio
           Gst.util_uint64_scale_int Gst.video_sink_center_rect
           Gst.gl_context_new Gst.gl_context_create Gst.qt_get_gl_wrapcontext
           Nat.eqb Sample.to_torn_down Sample.fresh Sample.torn_down
           [RetVoid; RetBool true; RetVoid; RetVoid]).
  vm_compute. reflexivity.
Defined.

Lemma setBuffer_returns_when_painted_witness :
  qt_item Sample.playing = item_ptr
  /\ negotiated (Sample.the_priv Sample.playing) = true
  /\ caps (Sample.the_priv Sample.playing) = Some Sample.hd_caps
  /\ m_openGlContextInitialized (item Sample.playing) = true
  /\ update_served More.third = true
  /\ (forall j, (j < 3)%nat -> render_runs More.third j = false)
  /\ render_runs More.third 3 = true
  /\ (forall j, oversleep More.third j = O)
  /\ exists w' p' n,
       Sample.setBuffer More.third 3 (Some 43%nat) Sample.playing = Some w'
       /\ priv (item w') = Some p'
       /\ front_buffer p' = Some 43%nat
       /\ back_buffer p' = front_buffer (Sample.the_priv Sample.playing)
       /\ waiting_on_render p' = false
       /\ paintNode w' = Some n
       /\ tex_buffer n = Some 43%nat
       /\ now w' = now Sample.playing + 3
       /\ log w' = repeat (EvSleep 1) 3 ++ EvUpdate :: log Sample.playing.
Proof.
  assert (Idle : forall j, (j < 3)%nat -> render_runs More.third j = false).
  { intros j Hj. do 3 (destruct j as [|j]; [reflexivity|]). lia. }
  repeat (split; [reflexivity|]). split; [exact Idle|].
  split; [reflexivity|]. split; [intros j; reflexivity|].
  apply (setBuffer_returns_when_painted Gst.video_sink_center_rect More.third
           3 3 (Some 43%nat) Sample.playing (Sample.the_priv Sample.playing)
           Sample.hd_caps);
    try reflexivity; try lia.
  exact Idle.
Defined.

Lemma calculate_par_exact_when_height_divides_witness :
  display_ratio Gst.video_calculate_display_ratio
    (new_private (Some 7%nat) : Sample.Priv) (mkVideoInfo 720 576 16 15)
  = Some (4, 3)
  /\ 576 mod 3 = 0
  /\ Gst.util_uint64_scale_int 576 4 3 = 576 * 4 / 3
  /\ exists p',
       More.calculate_par (new_private (Some 7%nat))
         (mkVideoInfo 720 576 16 15) = (true, p')
       /\ display_height p' = 576
       /\ display_width p' * 3 = display_height p' * 4.
Proof.
  repeat (split; [reflexivity|]).
  apply (calculate_par_exact_when_height_divides
           Gst.video_calculate_display_ratio Gst.util_uint64_scale_int
           (new_private (Some 7%nat) : Sample.Priv)
           (mkVideoInfo 720 576 16 15) 4 3);
    try reflexivity; unfold G_MAXINT; cbn; lia.
Defined.

Lemma calculate_par_exact_when_width_divides_witness :
  display_ratio Gst.video_calculate_display_ratio
    (new_private (Some 7%nat) : Sample.Priv) (mkVideoInfo 10 5 1 4)
  = Some (1, 2)
  /\ 5 mod 2 <> 0
  /\ 10 mod 1 = 0
  /\ Gst.util_uint64_scale_int 10 2 1 = 10 * 2 / 1
  /\ exists p',
       More.calculate_par (new_private (Some 7%nat)) (mkVideoInfo 10 5 1 4)
       = (true, p')
       /\ display_width p' = 10
       /\ display_width p' * 2 = display_height p' * 1.
Proof.
  split; [reflexivity|]. split; [discriminate|].
  split; [reflexivity|]. split; [reflexivity|].
  apply (calculate_par_exact_when_width_divides
           Gst.video_calculate_display_ratio Gst.util_uint64_scale_int
           (new_private (Some 7%nat) : Sample.Priv)
           (mkVideoInfo 10 5 1 4) 1 2);
    try reflexivity; try discriminate; unfold G_MAXINT; cbn; lia.
Defined.

Lemma calculate_par_approximation_within_a_pixel_witness :
  display_ratio Gst.video_calculate_display_ratio
    (new_private (Some 7%nat) : Sample.Priv) (mkVideoInfo 3 3 2 5)
  = Some (2, 5)
  /\ 3 mod 5 <> 0
  /\ 3 mod 2 <> 0
  /\ Gst.util_uint64_scale_int 3 2 5 = 3 * 2 / 5
  /\ exists p',
       More.calculate_par (new_private (Some 7%nat)) (mkVideoInfo 3 3 2 5)
       = (true, p')
       /\ display_height p' = 3
       /\ display_width p' * 5 <= display_height p' * 2
          < (display_width p' + 1) * 5.
Proof.
  split; [reflexivity|]. split; [discriminate|]. split; [discriminate|].
  split; [reflexivity|].
  apply (calculate_par_approximation_within_a_pixel
           Gst.video_calculate_display_ratio Gst.util_uint64_scale_int
           (new_private (Some 7%nat) : Sample.Priv)
           (mkVideoInfo 3 3 2 5) 2 5);
    try reflexivity; try discriminate; unfold G_MAXINT; cbn; lia.
Defined.

(** C3 at three sizes, one per branch: 720x576 with 16:15 pixels keeps the
    height (768x576), 10x5 with 1:4 pixels keeps the width (10x20), and 3x3
    with 2:5 pixels falls back on the height (1x3). *)
Lemma calculate_par_three_branch_witness :
  (display_ratio Gst.video_calculate_display_ratio
     (new_private (Some 7%nat) : Sample.Priv) (mkVideoInfo 720 576 16 15)
   = Some (4, 3)
   /\ Gst.util_uint64_scale_int 576 4 3 = 576 * 4 / 3
   /\ Gst.util_uint64_scale_int 720 3 4 = 720 * 3 / 4
   /\ exists p',
        More.calculate_par (new_private (Some 7%nat))
          (mkVideoInfo 720 576 16 15) = (true, p')
        /\ display_height p' = 576 /\ display_width p' = 768)
  /\ (display_ratio Gst.video_calculate_display_ratio
        (new_private (Some 7%nat) : Sample.Priv) (mkVideoInfo 10 5 1 4)
      = Some (1, 2)
      /\ exists p',
           More.calculate_par (new_private (Some 7%nat))
             (mkVideoInfo 10 5 1 4) = (true, p')
           /\ display_width p' = 10 /\ display_height p' = 20)
  /\ (display_ratio Gst.video_calculate_display_ratio
        (new_private (Some 7%nat) : Sample.Priv) (mkVideoInfo 3 3 2 5)
      = Some (2, 5)
      /\ exists p',
           More.calculate_par (new_private (Some 7%nat))
             (mkVideoInfo 3 3 2 5) = (true, p')
           /\ display_height p' = 3 /\ display_width p' = 1).
Proof.
  assert (R : forall z, 0 <= z <= 2147483647 -> 0 <= z <= G_MAXINT)
    by (unfold G_MAXINT; cbn; lia).
  assert (R' : forall z, 0 < z <= 2147483647 -> 0 < z <= G_MAXINT)
    by (unfold G_MAXINT; cbn; lia).
  assert (L : forall z, z <= 2147483647 -> z <= G_MAXINT)
    by (unfold G_MAXINT; cbn; lia).
  split; [|split].
  - split; [reflexivity|]. split; [reflexivity|]. split; [reflexivity|].
    destruct (calculate_par_three_branch Gst.video_calculate_display_ratio
                Gst.util_uint64_scale_int
                (new_private (Some 7%nat) : Sample.Priv)
                (mkVideoInfo 720 576 16 15) 4 3 eq_refl
                (R 720 ltac:(lia)) (R 576 ltac:(lia))
                (R' 4 ltac:(lia)) (R' 3 ltac:(lia)) eq_refl eq_refl)
      as (p' & E & B & _).
    exists p'. split; [exact E|].
    destruct (B : _ /\ _ /\ (768 <= G_MAXINT -> display_width p' = 768))
      as (H & _ & W).
    split; [exact H|]. apply W, L. lia.
  - split; [reflexivity|].
    destruct (calculate_par_three_branch Gst.video_calculate_display_ratio
                Gst.util_uint64_scale_int
                (new_private (Some 7%nat) : Sample.Priv)
                (mkVideoInfo 10 5 1 4) 1 2 eq_refl
                (R 10 ltac:(lia)) (R 5 ltac:(lia))
                (R' 1 ltac:(lia)) (R' 2 ltac:(lia)) eq_refl eq_refl)
      as (p' & E & B & _).
    exists p'. split; [exact E|].
    destruct (B : _ /\ _ /\ (20 <= G_MAXINT -> display_height p' = 20))
      as (W & _ & H).
    split; [exact W|]. apply H, L. lia.
  - split; [reflexivity|].
    destruct (calculate_par_three_branch Gst.video_calculate_display_ratio
                Gst.util_uint64_scale_int
                (new_private (Some 7%nat) : Sample.Priv)
                (mkVideoInfo 3 3 2 5) 2 5 eq_refl
                (R 3 ltac:(lia)) (R 3 ltac:(lia))
                (R' 2 ltac:(lia)) (R' 5 ltac:(lia)) eq_refl eq_refl)
      as (p' & E & B & _).
    exists p'. split; [exact E|].
    destruct (B : _ /\ _ /\ (1 <= G_MAXINT -> display_width p' = 1))
      as (H & _ & W).
    split; [exact H|]. apply W, L. lia.
Defined.

(** C3 as stated fails: for 4096x2160 with 1000000:1 pixels the display
    ratio is 51200000/27 and the height is a multiple of 27, yet the stored
    display_width is not the height scaled by the ratio, 4096000000, which
    does not fit a gint: it is that value wrapped, -198967296. *)
Lemma calculate_par_overflow_counterexample :
  display_ratio Gst.video_calculate_display_ratio
    (new_private (Some 7%nat) : Sample.Priv)
    (mkVideoInfo 4096 2160 1000000 1)
  = Some (51200000, 27)
  /\ 2160 mod 27 = 0
  /\ Gst.util_uint64_scale_int 2160 51200000 27 = 4096000000
  /\ fst (More.calculate_par (new_private (Some 7%nat))
            (mkVideoInfo 4096 2160 1000000 1)) = true
  /\ display_height
       (snd (More.calculate_par (new_private (Some 7%nat))
               (mkVideoInfo 4096 2160 1000000 1))) = 2160
  /\ display_width
       (snd (More.calculate_par (new_private (Some 7%nat))
               (mkVideoInfo 4096 2160 1000000 1))) = -198967296
  /\ display_width
       (snd (More.calculate_par (new_private (Some 7%nat))
               (mkVideoInfo 4096 2160 1000000 1)))
     <> 2160 * 51200000 / 27.
Proof.
  repeat (split; [vm_compute; reflexivity|]).
  vm_compute. discriminate.
Qed.

Lemma calculate_par_zero_par_n_witness :
  Gst.video_calculate_display_ratio
    (to_guint 1920) (to_guint 1080) (to_guint 1) (to_guint 1)
    (to_guint (fst (display_par (new_private (Some 7%nat) : Sample.Priv))))
    (to_guint (snd (display_par (new_private (Some 7%nat) : Sample.Priv))))
  = Some (16, 9)
  /\ source_par (mkVideoInfo 1920 1080 0 1) = (1, 1)
  /\ display_ratio Gst.video_calculate_display_ratio
       (new_private (Some 7%nat) : Sample.Priv) (mkVideoInfo 1920 1080 0 1)
     = Some (16, 9)
  /\ fst (More.calculate_par (new_private (Some 7%nat))
            (mkVideoInfo 1920 1080 0 1)) = true
  /\ More.calculate_par (new_private (Some 7%nat)) (mkVideoInfo 1920 1080 0 1)
     = More.calculate_par (new_private (Some 7%nat))
         (mkVideoInfo 1920 1080 1 1).
Proof.
  split; [reflexivity|].
  apply (calculate_par_zero_par_n Gst.video_calculate_display_ratio
           Gst.util_uint64_scale_int
           (new_private (Some 7%nat) : Sample.Priv) 1920 1080 1 16 9).
  reflexivity.
Defined.
